(** * Hydrant Network Calculator: the client and the solver's contracts

    A shallow embedding of the TypeScript front end of the hydrant network
    calculator ([types.ts], [api.ts], [App.tsx], [components/PressureChart.tsx])
    together with the parts of the hydraulic solver that the front end relies
    on.

    Conventions.
    - A JavaScript [number] is a rational [Q].  Every finite double is a
      rational and the comparisons used by the client ([<], the sign of a
      difference) agree with the rational ones on finite doubles; JSON carries
      no NaN.
    - An interface of [types.ts] is a record inside a module of the same name,
      so the fields keep their source names ([Node.node_id], [Edge.to_node]).
    - A handler of the React component [App] is a function on [AppState], the
      nine [useState] cells of the component; a handler that can raise returns
      an [outcome]. *)

From Stdlib Require Import String List Bool Arith ZArith QArith Qminmax.
From Stdlib Require Import Lia Lqa Permutation Sorted OrderedTypeEx DecimalString DecimalNat.
Import ListNotations.

Set Implicit Arguments.

(** ** Numbers and strings *)

Definition Qltb (x y : Q) : bool := negb (Qle_bool y x).

(** [Qsum l] is the left-to-right sum of [l], as [reduce] or a running total
    computes it. *)
Definition Qsum (l : list Q) : Q := fold_left Qplus l 0%Q.

(** Template literal [`${n}`] for a natural number. *)
Definition string_of_nat (n : nat) : string :=
  NilEmpty.string_of_uint (Nat.to_uint n).

(** ** Outcomes of calls that can raise *)

Inductive JsError : Type :=
| TypeError                (* reading a property of [undefined] *)
| Error (message : string) (* [new Error(message)] *)
| Rejected.                (* a rejected promise of the transport layer *)

Inductive outcome (A : Type) : Type :=
| Returned (a : A)
| Thrown (e : JsError).

Arguments Thrown {A} e.

Definition bind {A B : Type} (m : outcome A) (k : A -> outcome B) : outcome B :=
  match m with
  | Returned a => k a
  | Thrown e => Thrown e
  end.

Notation "x <- m ;; k" := (bind m (fun x => k))
  (at level 61, m at next level, right associativity).

(** ** Data model ([types.ts]) *)

Inductive NodeType : Type := source | junction | hydrant.

Definition NodeType_eqb (a b : NodeType) : bool :=
  match a, b with
  | source, source | junction, junction | hydrant, hydrant => true
  | _, _ => false
  end.

Definition NodeType_to_string (t : NodeType) : string :=
  match t with
  | source => "source"
  | junction => "junction"
  | hydrant => "hydrant"
  end%string.

Inductive PressureUnit : Type := bar | kPa | MPa.

Module MinorLossComponent.
Record t : Type := mk { name : string; K : Q }.
End MinorLossComponent.

Module Node.
Record t : Type := mk {
  node_id : string;
  type : NodeType;
  elevation_m : Q;
  demand_lpm : Q;
  is_active : bool
}.
End Node.

Module Edge.
Record t : Type := mk {
  edge_id : string;
  from_node : string;
  to_node : string;
  length_m : Q;
  diameter_mm : Q;
  roughness_mm : Q;
  minor_K : Q;
  minor_components : option (list MinorLossComponent.t) (* optional field *)
}.
End Edge.

Module FluidProperties.
Record t : Type := mk { density_kg_m3 : Q; viscosity_pa_s : Q }.
End FluidProperties.

Module NetworkInput.
Record t : Type := mk {
  nodes : list Node.t;
  edges : list Edge.t;
  source_pressure_bar : Q;
  fluid : FluidProperties.t;
  include_elevation : bool;
  pressure_unit : PressureUnit
}.
End NetworkInput.

Module SegmentResult.
Record t : Type := mk {
  edge_id : string;
  from_node : string;
  to_node : string;
  flow_lpm : Q;
  flow_m3s : Q;
  velocity_ms : Q;
  reynolds : Q;
  friction_factor : Q;
  delta_p_major_bar : Q;
  delta_p_minor_bar : Q;
  delta_p_total_bar : Q;
  flow_regime : string
}.
End SegmentResult.

Module NodeResult.
Record t : Type := mk {
  node_id : string;
  type : string;
  elevation_m : Q;
  demand_lpm : Q;
  pressure_bar : Q;
  is_active : bool;
  distance_from_source_m : Q
}.
End NodeResult.

Module CriticalPath.
Record t : Type := mk {
  path_nodes : list string;
  path_edges : list string;
  total_length_m : Q;
  critical_hydrant : string;
  critical_pressure_bar : Q
}.
End CriticalPath.

Module CalculationResult.
Record t : Type := mk {
  success : bool;
  message : string;
  segments : list SegmentResult.t;
  nodes : list NodeResult.t;
  critical_path : option CriticalPath.t; (* [CriticalPath | null] *)
  total_demand_lpm : Q;
  warnings : list string
}.
End CalculationResult.

Module ValidationResponse.
Record t : Type := mk { is_valid : bool; errors : list string }.
End ValidationResponse.

Definition DEFAULT_FLUID : FluidProperties.t :=
  FluidProperties.mk 998.0 0.001002.

Definition createEmptyNode (id : string) (type : NodeType) : Node.t :=
  Node.mk id type 0
    (match type with hydrant => 500 | _ => 0 end)
    true.

Definition createEmptyEdge (id from to : string) : Edge.t :=
  Edge.mk id from to 10 100 0.045 0 (Some []).

(** ** The editor ([App.tsx]): state and handlers *)

Inductive Tab : Type := input | results.

Record AppState : Type := mkAppState {
  (* network state *)
  nodes : list Node.t;
  edges : list Edge.t;
  sourcePressure : Q;
  fluid : FluidProperties.t;
  includeElevation : bool;
  (* result state *)
  result : option CalculationResult.t;
  loading : bool;
  error : option string;
  (* UI state *)
  activeTab : Tab
}.

Definition sourceNode : Node.t := Node.mk "S" source 0 0 true.

(** The initial values handed to [useState]. *)
Definition initialState : AppState :=
  mkAppState [sourceNode] [] 8.0 DEFAULT_FLUID true None false None input.

Definition setNodes (v : list Node.t) (st : AppState) : AppState :=
  mkAppState v (edges st) (sourcePressure st) (fluid st) (includeElevation st)
    (result st) (loading st) (error st) (activeTab st).

Definition setEdges (v : list Edge.t) (st : AppState) : AppState :=
  mkAppState (nodes st) v (sourcePressure st) (fluid st) (includeElevation st)
    (result st) (loading st) (error st) (activeTab st).

Definition setSourcePressure (v : Q) (st : AppState) : AppState :=
  mkAppState (nodes st) (edges st) v (fluid st) (includeElevation st)
    (result st) (loading st) (error st) (activeTab st).

Definition setFluid (v : FluidProperties.t) (st : AppState) : AppState :=
  mkAppState (nodes st) (edges st) (sourcePressure st) v (includeElevation st)
    (result st) (loading st) (error st) (activeTab st).

Definition setIncludeElevation (v : bool) (st : AppState) : AppState :=
  mkAppState (nodes st) (edges st) (sourcePressure st) (fluid st) v
    (result st) (loading st) (error st) (activeTab st).

Definition setResult (v : option CalculationResult.t) (st : AppState) : AppState :=
  mkAppState (nodes st) (edges st) (sourcePressure st) (fluid st)
    (includeElevation st) v (loading st) (error st) (activeTab st).

Definition setLoading (v : bool) (st : AppState) : AppState :=
  mkAppState (nodes st) (edges st) (sourcePressure st) (fluid st)
    (includeElevation st) (result st) v (error st) (activeTab st).

Definition setError (v : option string) (st : AppState) : AppState :=
  mkAppState (nodes st) (edges st) (sourcePressure st) (fluid st)
    (includeElevation st) (result st) (loading st) v (activeTab st).

Definition setActiveTab (v : Tab) (st : AppState) : AppState :=
  mkAppState (nodes st) (edges st) (sourcePressure st) (fluid st)
    (includeElevation st) (result st) (loading st) (error st) v.

(** [l.filter((x, i) => p x i)]; [i] counts from [from]. *)
Fixpoint filter_indexed_from {A : Type} (p : A -> nat -> bool) (from : nat)
    (l : list A) : list A :=
  match l with
  | [] => []
  | x :: l' =>
      if p x from then x :: filter_indexed_from p (S from) l'
      else filter_indexed_from p (S from) l'
  end.

Definition filter_indexed {A : Type} (p : A -> nat -> bool) (l : list A) : list A :=
  filter_indexed_from p 0 l.

Definition addNode (type : NodeType) (st : AppState) : AppState :=
  let prefix := match type with junction => "J" | _ => "H" end%string in
  let count :=
    (length (filter (fun n => NodeType_eqb (Node.type n) type) (nodes st)) + 1)%nat in
  let newNode := createEmptyNode (prefix ++ string_of_nat count)%string type in
  setNodes (nodes st ++ [newNode]) st.

(** [a || ''] on an array read: the element, or [''] when the read is
    [undefined] or the empty string. *)
Definition or_empty (o : option string) : string :=
  match o with
  | Some s => s
  | None => EmptyString
  end.

Definition addEdge (st : AppState) : AppState :=
  let count := (length (edges st) + 1)%nat in
  let fromOptions := map Node.node_id (nodes st) in
  let newEdge :=
    createEmptyEdge ("P" ++ string_of_nat count)%string
      (or_empty (nth_error fromOptions 0))
      (or_empty (nth_error fromOptions 1)) in
  setEdges (edges st ++ [newEdge]) st.

(** [e.from_node !== nodeId && e.to_node !== nodeId] *)
Definition unrelated (nodeId : string) (e : Edge.t) : bool :=
  negb (Edge.from_node e =? nodeId)%string && negb (Edge.to_node e =? nodeId)%string.

(** [removeNode(index)].  Reading [nodes[index].node_id] raises a TypeError
    when [index] is not the index of a node. *)
Definition removeNode (index : nat) (st : AppState) : outcome AppState :=
  match nth_error (nodes st) index with
  | None => Thrown TypeError
  | Some n =>
      let nodeId := Node.node_id n in
      if NodeType_eqb (Node.type n) source then Returned st
      else
        Returned
          (setNodes (filter_indexed (fun _ i => negb (i =? index)%nat) (nodes st))
             (setEdges (filter (unrelated nodeId) (edges st)) st))
  end.

Definition removeEdge (index : nat) (st : AppState) : AppState :=
  setEdges (filter_indexed (fun _ i => negb (i =? index)%nat) (edges st)) st.

(** The synchronous prefix of [loadDemo], up to its [await]. *)
Definition loadDemo_begin (st : AppState) : AppState :=
  setError None (setLoading true st).

Definition resetNetwork (st : AppState) : AppState :=
  setError None
    (setResult None
       (setIncludeElevation true
          (setFluid DEFAULT_FLUID
             (setSourcePressure 8.0
                (setEdges []
                   (setNodes [sourceNode] st)))))).

(** Well-formedness of the edited network: every edge names existing nodes at
    both ends, and a source node is present. *)
Definition node_ids (st : AppState) : list string :=
  map Node.node_id (nodes st).

Definition no_dangling_edge (st : AppState) : Prop :=
  forall e, In e (edges st) ->
    In (Edge.from_node e) (node_ids st) /\ In (Edge.to_node e) (node_ids st).

Definition has_source (st : AppState) : Prop :=
  exists n, In n (nodes st) /\ Node.type n = source.

(** ** The pressure chart ([components/PressureChart.tsx]) *)

Module ChartDataPoint.
Record t : Type := mk {
  distance : Q;
  pressure : Q;
  nodeId : string;
  type : string
}.
End ChartDataPoint.

(** [Array.prototype.sort(comparefn)].  The sort is stable, so for a
    consistent comparator its result does not depend on the engine's
    algorithm; it is written here as a stable insertion sort.  [comparefn a b]
    positive means that [a] goes after [b]. *)
Section ArraySort.
Variable A : Type.
Variable comparefn : A -> A -> Q.

Fixpoint sort_insert (x : A) (l : list A) : list A :=
  match l with
  | [] => [x]
  | y :: l' =>
      if Qle_bool (comparefn x y) 0 then x :: y :: l'
      else y :: sort_insert x l'
  end.

Definition Array_sort (l : list A) : list A :=
  fold_right sort_insert [] l.
End ArraySort.

Definition point_of (nodeResult : NodeResult.t) : ChartDataPoint.t :=
  ChartDataPoint.mk
    (NodeResult.distance_from_source_m nodeResult)
    (NodeResult.pressure_bar nodeResult)
    (NodeResult.node_id nodeResult)
    (NodeResult.type nodeResult).

(** [result.nodes.find(n => n.node_id === nodeId)] *)
Definition find_node (nodes : list NodeResult.t) (nodeId : string)
    : option NodeResult.t :=
  find (fun n => (NodeResult.node_id n =? nodeId)%string) nodes.

(** One turn of the [for ... of] loop over [path_nodes]: push the point of the
    first node result with that id, if there is one. *)
Definition push_point (nodes : list NodeResult.t)
    (data : list ChartDataPoint.t) (nodeId : string) : list ChartDataPoint.t :=
  match find_node nodes nodeId with
  | Some nodeResult => data ++ [point_of nodeResult]
  | None => data
  end.

Definition by_distance (a b : ChartDataPoint.t) : Q :=
  ChartDataPoint.distance a - ChartDataPoint.distance b.

(** The points that the loop collects for a list of ids, in the order of the
    ids: the point of the first node result of each id that has one. *)
Definition matched_points (nodes : list NodeResult.t) (path : list string)
    : list ChartDataPoint.t :=
  flat_map
    (fun nodeId =>
       match find_node nodes nodeId with
       | Some nodeResult => [point_of nodeResult]
       | None => []
       end)
    path.

(** [occurs nodes nodeId]: some node result has the id [nodeId]. *)
Definition occurs (nodes : list NodeResult.t) (nodeId : string) : bool :=
  existsb (fun n => (NodeResult.node_id n =? nodeId)%string) nodes.

Definition nondecreasing_distance (a b : ChartDataPoint.t) : Prop :=
  (ChartDataPoint.distance a <= ChartDataPoint.distance b)%Q.

(** The memoised [chartData]. *)
Definition chartData (result : CalculationResult.t) : list ChartDataPoint.t :=
  match CalculationResult.critical_path result with
  | None => []
  | Some critical_path =>
      let data :=
        fold_left (push_point (CalculationResult.nodes result))
          (CriticalPath.path_nodes critical_path) [] in
      Array_sort by_distance data
  end.

(** [Math.min(...l)] of a list with head [x]. *)
Definition Math_min (x : Q) (l : list Q) : Q := fold_left Qmin l x.

(** What the component renders: the placeholder, or the line chart with its
    data, the height of the warning reference line and whether the zero-gauge
    reference line is drawn.  The domain of the pressure axis is not part of
    the view: the component derives it from the extreme pressures with
    floating-point sums ([minPressure - 0.5], [maxPressure + 0.5]) that are
    rounded before [Math.floor] and [Math.ceil], which rationals do not
    reproduce. *)
Inductive ChartView : Type :=
| NoDataPlaceholder (text : string)
| LineChart (data : list ChartDataPoint.t) (warningLine : Q) (zeroLine : bool).

Definition PressureChart (result : CalculationResult.t) : ChartView :=
  match chartData result with
  | [] => NoDataPlaceholder "No data available for pressure chart"
  | d :: ds =>
      let pressures := map ChartDataPoint.pressure ds in
      let minPressure := Math_min (ChartDataPoint.pressure d) pressures in
      LineChart (d :: ds) 2 (Qltb minPressure 1)
  end.

(** Colour of the pressure in the chart's tooltip. *)
Definition tooltipPressureClass (data : ChartDataPoint.t) : string :=
  if Qltb (ChartDataPoint.pressure data) 2 then "text-red-600"
  else "text-emerald-600".

(** ** The results view ([App.tsx]) *)

Inductive StatusBadge : Type :=
| Negative  (* badge-danger, "Negative!" *)
| Low       (* badge-warning, "Low" *)
| OK.       (* badge-success, "OK" *)

(** The status cell of a row of the node table. *)
Definition nodeStatus (node : NodeResult.t) : StatusBadge :=
  if Qltb (NodeResult.pressure_bar node) 0 then Negative
  else if Qltb (NodeResult.pressure_bar node) 2 then Low
  else OK.

(** The class of the row and of the pressure cell. *)
Definition rowClass (node : NodeResult.t) : string :=
  if Qltb (NodeResult.pressure_bar node) 0 then "bg-red-50" else EmptyString.

Definition pressureCellClass (node : NodeResult.t) : string :=
  if Qltb (NodeResult.pressure_bar node) 2 then "text-red-600"
  else "text-emerald-600".

(** The three blocks of the results view that read [result.critical_path];
    each is rendered under the guard [result.critical_path && (...)], so an
    absent block is [None]. *)
Module CriticalCard.
Record t : Type := mk {
  critical_hydrant : string;
  critical_pressure_bar : Q;
  pressureClass : string
}.
End CriticalCard.

Definition criticalCard (result : CalculationResult.t) : option CriticalCard.t :=
  match CalculationResult.critical_path result with
  | None => None
  | Some critical_path =>
      Some (CriticalCard.mk
              (CriticalPath.critical_hydrant critical_path)
              (CriticalPath.critical_pressure_bar critical_path)
              (if Qltb (CriticalPath.critical_pressure_bar critical_path) 2
               then "text-red-400" else "text-emerald-400"))
  end.

Module PathBadge.
Record t : Type := mk {
  nodeId : string;
  danger : bool;  (* badge-danger for the critical hydrant, else badge-success *)
  arrow : bool    (* an arrow follows every badge but the last *)
}.
End PathBadge.

Fixpoint pathBadges_from (critical_path : CriticalPath.t) (i : nat)
    (l : list string) : list PathBadge.t :=
  match l with
  | [] => []
  | nodeId :: l' =>
      PathBadge.mk nodeId
        (nodeId =? CriticalPath.critical_hydrant critical_path)%string
        (i <? length (CriticalPath.path_nodes critical_path) - 1)%nat
      :: pathBadges_from critical_path (S i) l'
  end.

Definition criticalPathPanel (result : CalculationResult.t)
    : option (list PathBadge.t * Q) :=
  match CalculationResult.critical_path result with
  | None => None
  | Some critical_path =>
      Some (pathBadges_from critical_path 0 (CriticalPath.path_nodes critical_path),
            CriticalPath.total_length_m critical_path)
  end.

Definition chartPanel (result : CalculationResult.t) : option ChartView :=
  match CalculationResult.critical_path result with
  | None => None
  | Some _ => Some (PressureChart result)
  end.

(** ** The API client ([api.ts]) *)

(** A parsed JSON value, as [response.json()] resolves to. *)
#[local] Unset Elimination Schemes.
Inductive JSON : Type :=
| JNull
| JBool (b : bool)
| JNumber (q : Q)
| JString (s : string)
| JArray (items : list JSON)
| JObject (members : list (string * JSON)).
#[local] Set Elimination Schemes.

(** The JSON form of a [ValidationResponse]: an object with exactly the two
    members [is_valid] and [errors]. *)
Definition ValidationResponse_to_json (v : ValidationResponse.t) : JSON :=
  JObject [("is_valid"%string, JBool (ValidationResponse.is_valid v));
           ("errors"%string, JArray (map JString (ValidationResponse.errors v)))].

(** [v[key]] for a value that is neither [null] nor [undefined]; [None] is
    [undefined]. *)
Definition member (key : string) (v : JSON) : option JSON :=
  match v with
  | JObject members =>
      option_map snd (find (fun kv => (fst kv =? key)%string) members)
  | _ => None
  end.

Definition truthy (v : option JSON) : bool :=
  match v with
  | None | Some JNull => false
  | Some (JBool b) => b
  | Some (JNumber q) => negb (Qeq_bool q 0)
  | Some (JString s) => negb (s =? EmptyString)%string
  | Some (JArray _) | Some (JObject _) => true
  end.

(** [a || b] *)
Definition or_else (a b : option JSON) : option JSON :=
  if truthy a then a else b.

Module Request.
Record t : Type := mk {
  url : string;
  method : string;
  headers : list (string * string);
  body : option string
}.
End Request.

Module Response.
Record t : Type := mk {
  ok : bool;
  json : outcome JSON  (* [response.json()]; rejects on a malformed body *)
}.
End Response.

Definition API_BASE : string := "/api".

Section Api.
(** The transport: [fetch], which resolves to a response or rejects, and
    [JSON.stringify] on a network. *)
Variable fetch : Request.t -> outcome Response.t.
Variable JSON_stringify : NetworkInput.t -> string.
(** [String(v)], used by [new Error(v)], for a value that is not a string. *)
Variable ToString : JSON -> string.

Definition post (path : string) (network : NetworkInput.t) : Request.t :=
  Request.mk (API_BASE ++ path)%string "POST"
    [("Content-Type", "application/json")%string]
    (Some (JSON_stringify network)).

Definition calculateRequest (network : NetworkInput.t) : Request.t :=
  post "/calculate" network.

Definition validateRequest (network : NetworkInput.t) : Request.t :=
  post "/validate" network.

Definition error_message (v : option JSON) : string :=
  match v with
  | Some (JString s) => s
  | Some v' => ToString v'
  | None => EmptyString
  end.

Definition calculateNetwork (network : NetworkInput.t) : outcome JSON :=
  response <- fetch (calculateRequest network) ;;
  if negb (Response.ok response) then
    error <- Response.json response ;;
    match error with
    | JNull => Thrown TypeError
    | _ =>
        let detail := member "detail" error in
        let detail_message :=
          match detail with
          | None | Some JNull => None
          | Some d => member "message" d
          end in
        Thrown (Error (error_message
                         (or_else detail_message
                            (or_else detail
                               (Some (JString "Calculation failed"))))))
    end
  else Response.json response.

Definition validateNetwork (network : NetworkInput.t) : outcome JSON :=
  response <- fetch (validateRequest network) ;;
  if negb (Response.ok response) then
    Thrown (Error "Validation request failed")
  else Response.json response.
End Api.

(** ** The hydraulic solver *)

Module Solver.

(** *** Validated trees *)

(** Modelled from the spec: the validated tree handle that the Validator
    hands to the solver (the back end, [validation.py] and [calculator.py],
    is not among the sources).  A node carries the segments to its
    children, each with the subtree at its downstream end. *)
#[local] Unset Elimination Schemes.
Inductive Tree : Type :=
| TNode (n : Node.t) (children : list (Edge.t * Tree)).
#[local] Set Elimination Schemes.

Definition root (t : Tree) : Node.t :=
  match t with TNode n _ => n end.

(** Modelled from the spec: the subtree rooted at a node (section 4.2), as
    the list of its nodes, the root first. *)
Fixpoint subtree_nodes (t : Tree) : list Node.t :=
  match t with
  | TNode n cs => n :: flat_map (fun ec => subtree_nodes (snd ec)) cs
  end.

(** Modelled from the spec: the segments of a subtree, each with the subtree
    rooted at its downstream node, children before parents. *)
Fixpoint segments (t : Tree) : list (Edge.t * Tree) :=
  match t with
  | TNode n cs => flat_map (fun ec => segments (snd ec) ++ [ec]) cs
  end.

Fixpoint nodupb (l : list string) : bool :=
  match l with
  | [] => true
  | x :: l' => negb (existsb (String.eqb x) l') && nodupb l'
  end.

(** Modelled from the spec: segments oriented upstream to downstream
    (invariants 2 and 4); every segment runs from its parent to the root of
    its subtree. *)
Fixpoint oriented (t : Tree) : bool :=
  match t with
  | TNode n cs =>
      forallb
        (fun ec =>
           (Edge.from_node (fst ec) =? Node.node_id n)%string
           && (Edge.to_node (fst ec) =? Node.node_id (root (snd ec)))%string
           && oriented (snd ec))
        cs
  end.

(** Modelled from the spec: a node of kind hydrant with active = true. *)
Definition is_active_hydrant (n : Node.t) : bool :=
  NodeType_eqb (Node.type n) hydrant && Node.is_active n.

(** Modelled from the spec: the invariants of section 3 that the Validator
    enforces, on a tree handle: unique node and segment ids (1), segments
    that join parent to child (2, 4), the root as the only source (3),
    positive length and diameter, roughness and demand not negative (5), an
    active hydrant with positive demand (6). *)
Definition validated (t : Tree) : bool :=
  nodupb (map Node.node_id (subtree_nodes t))
  && nodupb (map (fun ec => Edge.edge_id (fst ec)) (segments t))
  && oriented t
  && NodeType_eqb (Node.type (root t)) source
  && forallb (fun ec => negb (NodeType_eqb (Node.type (root (snd ec))) source))
       (segments t)
  && forallb (fun ec => Qltb 0 (Edge.length_m (fst ec))
                        && Qltb 0 (Edge.diameter_mm (fst ec))
                        && Qle_bool 0 (Edge.roughness_mm (fst ec)))
       (segments t)
  && forallb (fun n => Qle_bool 0 (Node.demand_lpm n)) (subtree_nodes t)
  && existsb (fun n => is_active_hydrant n && Qltb 0 (Node.demand_lpm n))
       (subtree_nodes t).

(** *** Flow Distributor *)

(** Modelled from the spec: what a node contributes to the flow, its demand
    when it is an active hydrant and zero otherwise (section 4.2). *)
Definition own_demand (n : Node.t) : Q :=
  if is_active_hydrant n then Node.demand_lpm n else 0.

(** Modelled from the spec: the words of section 4.2 for the flow of a
    segment, the sum of demand of all active hydrants in the subtree rooted
    at its downstream node. *)
Definition active_demand_below (t : Tree) : Q :=
  Qsum (map Node.demand_lpm (filter is_active_hydrant (subtree_nodes t))).

(** Modelled from the spec: the Flow Distributor of section 4.2, one
    post-order traversal.  A node is resolved after its children: the
    traversal of a subtree returns the demand it draws and the flows of the
    segments inside it, and the parent records that demand as the flow of
    the segment to the child. *)
Fixpoint distribute (t : Tree) : Q * list (string * Q) :=
  match t with
  | TNode n cs =>
      fold_left
        (fun acc ec =>
           let r := distribute (snd ec) in
           (fst acc + fst r,
            snd acc ++ snd r ++ [(Edge.edge_id (fst ec), fst r)]))
        cs (own_demand n, [])
  end.

Definition total_demand (t : Tree) : Q := fst (distribute t).
Definition flows (t : Tree) : list (string * Q) := snd (distribute t).

(** Modelled from the spec: the flow that the result records for a segment
    id. *)
Definition flow_of (fl : list (string * Q)) (edge_id : string) : option Q :=
  option_map snd (find (fun p => (fst p =? edge_id)%string) fl).

(** *** Segment Solver: the minor loss *)

(** Modelled from the spec: the total minor-loss coefficient of section 4.3,
    the sum of the component coefficients when the component list is not
    empty, else the scalar coefficient.  An absent list counts as empty. *)
Definition K_total (e : Edge.t) : Q :=
  match Edge.minor_components e with
  | Some (c :: cs) => Qsum (map MinorLossComponent.K (c :: cs))
  | Some [] | None => Edge.minor_K e
  end.

(** Modelled from the spec: the minor loss of section 4.3 at density [rho]
    and velocity [v], [K_total * (rho * v^2 / 2)]. *)
Definition delta_p_minor (e : Edge.t) (rho v : Q) : Q :=
  K_total e * (rho * (v * v) / 2).

(** *** Critical Path Finder *)

(** Modelled from the spec: the candidates of section 4.5, the node results
    of kind hydrant with active = true. *)
Definition candidate (n : NodeResult.t) : bool :=
  (NodeResult.type n =? "hydrant")%string && NodeResult.is_active n.

(** Modelled from the spec: the order of section 4.5.  [precedes a b]: [a]
    has the lower pressure, or the same pressure and the smaller id in
    lexicographic order. *)
Definition precedes (a b : NodeResult.t) : bool :=
  Qltb (NodeResult.pressure_bar a) (NodeResult.pressure_bar b)
  || (Qeq_bool (NodeResult.pressure_bar a) (NodeResult.pressure_bar b)
      && String.ltb (NodeResult.node_id a) (NodeResult.node_id b)).

(** Modelled from the spec: one step of the selection, which keeps the
    better of the best so far and the next candidate. *)
Definition select (best : option NodeResult.t) (n : NodeResult.t)
    : option NodeResult.t :=
  if candidate n then
    match best with
    | None => Some n
    | Some b => if precedes n b then Some n else Some b
    end
  else best.

(** Modelled from the spec: the selection of the Critical Path Finder of
    section 4.5, one pass over the node results that keeps the active
    hydrant of minimum pressure, ties going to the smaller id; [None] when
    there is no active hydrant. *)
Definition critical_hydrant (nodes : list NodeResult.t) : option NodeResult.t :=
  fold_left select nodes None.

(** Modelled from the spec: the words of section 4.5 as a relation.  [h] is
    an active hydrant of minimum pressure, and of smallest id among those of
    that pressure. *)
Definition is_critical (nodes : list NodeResult.t) (h : NodeResult.t) : Prop :=
  In h nodes /\ candidate h = true /\
  forall n, In n nodes -> candidate n = true ->
    (NodeResult.pressure_bar h <= NodeResult.pressure_bar n)%Q /\
    (NodeResult.pressure_bar n == NodeResult.pressure_bar h ->
     String.leb (NodeResult.node_id h) (NodeResult.node_id n) = true).

End Solver.

(** ** The editor, continued ([App.tsx]) *)

(** A call [updateNode(index, field, value)] names a field of [Node] and
    gives its new value. *)
Inductive NodeUpdate : Type :=
| set_node_id (value : string)
| set_type (value : NodeType)
| set_elevation_m (value : Q)
| set_demand_lpm (value : Q)
| set_is_active (value : bool).

(** [{ ...node, [field]: value }] *)
Definition apply_NodeUpdate (u : NodeUpdate) (node : Node.t) : Node.t :=
  match u with
  | set_node_id v =>
      Node.mk v (Node.type node) (Node.elevation_m node)
        (Node.demand_lpm node) (Node.is_active node)
  | set_type v =>
      Node.mk (Node.node_id node) v (Node.elevation_m node)
        (Node.demand_lpm node) (Node.is_active node)
  | set_elevation_m v =>
      Node.mk (Node.node_id node) (Node.type node) v
        (Node.demand_lpm node) (Node.is_active node)
  | set_demand_lpm v =>
      Node.mk (Node.node_id node) (Node.type node) (Node.elevation_m node)
        v (Node.is_active node)
  | set_is_active v =>
      Node.mk (Node.node_id node) (Node.type node) (Node.elevation_m node)
        (Node.demand_lpm node) v
  end.

Inductive EdgeUpdate : Type :=
| set_edge_id (value : string)
| set_from_node (value : string)
| set_to_node (value : string)
| set_length_m (value : Q)
| set_diameter_mm (value : Q)
| set_roughness_mm (value : Q)
| set_minor_K (value : Q)
| set_minor_components (value : option (list MinorLossComponent.t)).

Definition apply_EdgeUpdate (u : EdgeUpdate) (edge : Edge.t) : Edge.t :=
  match u with
  | set_edge_id v =>
      Edge.mk v (Edge.from_node edge) (Edge.to_node edge) (Edge.length_m edge)
        (Edge.diameter_mm edge) (Edge.roughness_mm edge) (Edge.minor_K edge)
        (Edge.minor_components edge)
  | set_from_node v =>
      Edge.mk (Edge.edge_id edge) v (Edge.to_node edge) (Edge.length_m edge)
        (Edge.diameter_mm edge) (Edge.roughness_mm edge) (Edge.minor_K edge)
        (Edge.minor_components edge)
  | set_to_node v =>
      Edge.mk (Edge.edge_id edge) (Edge.from_node edge) v (Edge.length_m edge)
        (Edge.diameter_mm edge) (Edge.roughness_mm edge) (Edge.minor_K edge)
        (Edge.minor_components edge)
  | set_length_m v =>
      Edge.mk (Edge.edge_id edge) (Edge.from_node edge) (Edge.to_node edge) v
        (Edge.diameter_mm edge) (Edge.roughness_mm edge) (Edge.minor_K edge)
        (Edge.minor_components edge)
  | set_diameter_mm v =>
      Edge.mk (Edge.edge_id edge) (Edge.from_node edge) (Edge.to_node edge)
        (Edge.length_m edge) v (Edge.roughness_mm edge) (Edge.minor_K edge)
        (Edge.minor_components edge)
  | set_roughness_mm v =>
      Edge.mk (Edge.edge_id edge) (Edge.from_node edge) (Edge.to_node edge)
        (Edge.length_m edge) (Edge.diameter_mm edge) v (Edge.minor_K edge)
        (Edge.minor_components edge)
  | set_minor_K v =>
      Edge.mk (Edge.edge_id edge) (Edge.from_node edge) (Edge.to_node edge)
        (Edge.length_m edge) (Edge.diameter_mm edge) (Edge.roughness_mm edge) v
        (Edge.minor_components edge)
  | set_minor_components v =>
      Edge.mk (Edge.edge_id edge) (Edge.from_node edge) (Edge.to_node edge)
        (Edge.length_m edge) (Edge.diameter_mm edge) (Edge.roughness_mm edge)
        (Edge.minor_K edge) v
  end.

(** [updated[index] = f(updated[index])] on a copy of a list, for an index of
    the list. *)
Fixpoint replace_at {A : Type} (index : nat) (f : A -> A) (l : list A) : list A :=
  match l, index with
  | [], _ => []
  | x :: l', O => f x :: l'
  | x :: l', S i => x :: replace_at i f l'
  end.

(** The state after [updated[index] = { ...updated[index], [field]: value }]
    on a copy of a list cell of the state.
    - [Rewritten st']: [index] is an index of the list; the element there is
      rewritten and [st'] is the new state.
    - [Extended holes u]: [index] is at or past the end of the list.  The
      spread of [undefined] is empty, so the copy receives at [index] an
      object with the one field of [u] and no other, after [holes] empty
      slots; the elements of the list stay as they were, and so does every
      other cell.  Such an array is not a list of nodes (or pipes), so it is
      described here and not stored in an [AppState]. *)
Inductive UpdateResult (U : Type) : Type :=
| Rewritten (st' : AppState)
| Extended (holes : nat) (u : U).

Arguments Rewritten {U} st'.

(** [updateNode(index, field, value)] *)
Definition updateNode (index : nat) (u : NodeUpdate) (st : AppState)
    : UpdateResult NodeUpdate :=
  if (index <? length (nodes st))%nat
  then Rewritten (setNodes (replace_at index (apply_NodeUpdate u) (nodes st)) st)
  else Extended (index - length (nodes st)) u.

(** [updateEdge(index, field, value)] *)
Definition updateEdge (index : nat) (u : EdgeUpdate) (st : AppState)
    : UpdateResult EdgeUpdate :=
  if (index <? length (edges st))%nat
  then Rewritten (setEdges (replace_at index (apply_EdgeUpdate u) (edges st)) st)
  else Extended (index - length (edges st)) u.

(** The [disabled] attribute of the "Run Calculation" button. *)
Definition runDisabled (st : AppState) : bool :=
  loading st || (length (nodes st) <? 2)%nat || (length (edges st) =? 0)%nat.

(** The panel below the tabs: the input panel under
    [activeTab === 'input'], the results panel under
    [activeTab === 'results' && result], that is when the result cell is
    truthy, else nothing. *)
Definition visiblePanel (st : AppState) : option Tab :=
  match activeTab st, result st with
  | input, _ => Some input
  | results, Some _ => Some results
  | results, None => None
  end.

(** The network that [runCalculation] and [handleExportJSON] assemble from
    the state. *)
Definition networkOf (st : AppState) : NetworkInput.t :=
  NetworkInput.mk (nodes st) (edges st) (sourcePressure st) (fluid st)
    (includeElevation st) bar.

(** ** The API client, continued ([api.ts]) *)

(** [fetch(url)] with no options: a GET without headers or body. *)
Definition get (path : string) : Request.t :=
  Request.mk (API_BASE ++ path)%string "GET" [] None.

Section ApiRest.
(** The transport, and the two readers of a response that the exports use:
    [JSON.stringify({ result, pressure_unit })] and [response.blob()]. *)
Variable Blob : Type.
Variable fetch : Request.t -> outcome Response.t.
Variable JSON_stringify_export : CalculationResult.t -> PressureUnit -> string.
Variable blob : Response.t -> outcome Blob.

Definition getDemoNetwork : outcome JSON :=
  response <- fetch (get "/demo") ;;
  if negb (Response.ok response) then
    Thrown (Error "Failed to fetch demo network")
  else Response.json response.

Definition getKFactors : outcome JSON :=
  response <- fetch (get "/k-factors") ;;
  if negb (Response.ok response) then
    Thrown (Error "Failed to fetch K-factors")
  else Response.json response.

Definition exportRequest (path : string) (result : CalculationResult.t)
    : Request.t :=
  Request.mk (API_BASE ++ path)%string "POST"
    [("Content-Type", "application/json")%string]
    (Some (JSON_stringify_export result bar)).

Definition exportSegmentsCSV (result : CalculationResult.t) : outcome Blob :=
  response <- fetch (exportRequest "/export/segments-csv" result) ;;
  if negb (Response.ok response) then
    Thrown (Error "Failed to export segments CSV")
  else blob response.

Definition exportNodesCSV (result : CalculationResult.t) : outcome Blob :=
  response <- fetch (exportRequest "/export/nodes-csv" result) ;;
  if negb (Response.ok response) then
    Thrown (Error "Failed to export nodes CSV")
  else blob response.
End ApiRest.

(** ** The editor's asynchronous handlers ([App.tsx]) *)

Section AppEffects.
(** The transport, as for the API client. *)
Variable fetch : Request.t -> outcome Response.t.
Variable JSON_stringify : NetworkInput.t -> string.
Variable ToString : JSON -> string.
(** [err.message] of an error that was not made by [new Error(message)]: the
    text is the engine's. *)
Variable engine_message : JsError -> string.
(** The type assertions of TypeScript on parsed JSON; nothing is checked at
    run time. *)
Variable as_CalculationResult : JSON -> CalculationResult.t.
Variable as_NetworkInput : JSON -> NetworkInput.t.
Variable as_nodes : JSON -> list Node.t.
Variable as_edges : JSON -> list Edge.t.
Variable as_number : JSON -> Q.
Variable as_fluid : JSON -> FluidProperties.t.
Variable as_boolean : JSON -> bool.
(** [JSON.parse] *)
Variable JSON_parse : string -> outcome JSON.

(** [err instanceof Error ? err.message : fallback].  Every exception of this
    embedding is an instance of [Error] (a TypeError, a SyntaxError of the
    parser, an [Error] of the client), so the fallback is never taken. *)
Definition message_of (err : JsError) : string :=
  match err with
  | Error message => message
  | _ => engine_message err
  end.

(** A parsed body stored in the [result] cell.  The component reads the cell
    only through tests of its truthiness ([!result], [result && ...]), so
    [None] stands for every falsy value: [null] stays [null], and the bodies
    [false], [0] and [''] count as no result either. *)
Definition result_of (body : JSON) : option CalculationResult.t :=
  if truthy (Some body) then Some (as_CalculationResult body) else None.

(** [runCalculation], from the click to the end of its [finally]. *)
Definition runCalculation (st : AppState) : AppState :=
  let started := setError None (setLoading true st) in
  let settled :=
    match calculateNetwork fetch JSON_stringify ToString (networkOf st) with
    | Returned calcResult =>
        setActiveTab results (setResult (result_of calcResult) started)
    | Thrown err => setError (Some (message_of err)) started
    end in
  setLoading false settled.

(** [loadDemo], from the click to the end of its [finally]. *)
Definition loadDemo (st : AppState) : AppState :=
  let started := setError None (setLoading true st) in
  let settled :=
    match getDemoNetwork fetch with
    | Returned JNull =>
        (* reading [demo.nodes] of [null] raises *)
        setError (Some (message_of TypeError)) started
    | Returned body =>
        let demo := as_NetworkInput body in
        setResult None
          (setIncludeElevation (NetworkInput.include_elevation demo)
             (setFluid (NetworkInput.fluid demo)
                (setSourcePressure (NetworkInput.source_pressure_bar demo)
                   (setEdges (NetworkInput.edges demo)
                      (setNodes (NetworkInput.nodes demo) started)))))
    | Thrown err => setError (Some (message_of err)) started
    end in
  setLoading false settled.

(** [if (data.key) set(data.key)]: the setter runs when the member is there
    and truthy. *)
Definition when_truthy (o : option JSON) (set : JSON -> AppState -> AppState)
    (st : AppState) : AppState :=
  match o with
  | Some v => if truthy o then set v st else st
  | None => st
  end.

(** [if (data.key !== undefined) set(data.key)] *)
Definition when_defined (o : option JSON) (set : JSON -> AppState -> AppState)
    (st : AppState) : AppState :=
  match o with
  | Some v => set v st
  | None => st
  end.

Definition number_of (v : JSON) : Q :=
  match v with
  | JNumber q => q
  | _ => as_number v
  end.

Definition boolean_of (v : JSON) : bool :=
  match v with
  | JBool b => b
  | _ => as_boolean v
  end.

(** The body of the [try] of [handleImportJSON] once the text is parsed.
    Reading a member of [null] raises; no other read can. *)
Definition importData (data : JSON) (st : AppState) : outcome AppState :=
  match data with
  | JNull => Thrown TypeError
  | _ =>
      Returned
        (setError None
           (setResult None
              (when_defined (member "include_elevation" data)
                 (fun v => setIncludeElevation (boolean_of v))
                 (when_truthy (member "fluid" data)
                    (fun v => setFluid (as_fluid v))
                    (when_truthy (member "source_pressure_bar" data)
                       (fun v => setSourcePressure (number_of v))
                       (when_truthy (member "edges" data)
                          (fun v => setEdges (as_edges v))
                          (when_truthy (member "nodes" data)
                             (fun v => setNodes (as_nodes v))
                             st)))))))
  end.

(** [reader.onload] of [handleImportJSON] on the text of the file. *)
Definition handleImportJSON (text : string) (st : AppState) : AppState :=
  match data <- JSON_parse text ;; importData data st with
  | Returned st' => st'
  | Thrown _ => setError (Some "Invalid JSON file"%string) st
  end.
End AppEffects.

(** ** Example networks and results *)

(** Scenario A of the specification: S --P1--> J1 --P2--> H1. *)
Definition scenarioA_nodes : list Node.t :=
  [sourceNode; createEmptyNode "J1" junction; createEmptyNode "H1" hydrant].

Definition scenarioA_P1 : Edge.t := Edge.mk "P1" "S" "J1" 50 150 0.045 0.5 None.
Definition scenarioA_P2 : Edge.t := Edge.mk "P2" "J1" "H1" 20 65 0.045 3.5 None.

Definition scenarioA_edges : list Edge.t := [scenarioA_P1; scenarioA_P2].

(** A result for scenario A whose critical path lists its nodes from the
    hydrant back to the source and names one id, "X", that has no node
    result. *)
Definition example_result : CalculationResult.t :=
  CalculationResult.mk true "Calculation completed" []
    [NodeResult.mk "S" "source" 0 0 8 true 0;
     NodeResult.mk "J1" "junction" 0 0 7.5 true 50;
     NodeResult.mk "H1" "hydrant" 0 500 1.5 true 70]
    (Some (CriticalPath.mk ["H1"; "X"; "J1"; "S"]%string ["P1"; "P2"]%string
             70 "H1" 1.5))
    500 [].

Definition scenarioA : NetworkInput.t :=
  NetworkInput.mk scenarioA_nodes scenarioA_edges 8.0 DEFAULT_FLUID true bar.

(** A server that answers every request with status 200 and the verdict of
    scenario B of the specification (two sources). *)
Definition scenarioB_verdict : ValidationResponse.t :=
  ValidationResponse.mk false ["Source count error: found 2 source nodes"%string].

Definition answering_server (_ : Request.t) : outcome Response.t :=
  Returned (Response.mk true (Returned (ValidationResponse_to_json scenarioB_verdict))).

(** Scenario A as a validated tree. *)
Definition scenarioA_tree : Solver.Tree :=
  Solver.TNode sourceNode
    [(scenarioA_P1,
      Solver.TNode (createEmptyNode "J1" junction)
        [(scenarioA_P2, Solver.TNode (createEmptyNode "H1" hydrant) [])])].

(** A line with a hydrant in the middle: S --P1--> H1 --P2--> H2, where H1
    draws 500 and H2 draws 300. *)
Definition line_P1 : Edge.t := createEmptyEdge "P1" "S" "H1".
Definition line_P2 : Edge.t := createEmptyEdge "P2" "H1" "H2".
Definition line_H1 : Node.t := createEmptyNode "H1" hydrant.
Definition line_H2 : Node.t := Node.mk "H2" hydrant 0 300 true.

Definition interior_hydrant_tree : Solver.Tree :=
  Solver.TNode sourceNode
    [(line_P1, Solver.TNode line_H1 [(line_P2, Solver.TNode line_H2 [])])].

(** A server that answers every request with status 200 and the empty object,
    and one that answers with status 200 and a body that is not JSON, on
    which [response.json()] rejects. *)
Definition empty_object_server (_ : Request.t) : outcome Response.t :=
  Returned (Response.mk true (Returned (JObject []))).

Definition unparsable_server (_ : Request.t) : outcome Response.t :=
  Returned (Response.mk true (Thrown Rejected)).

(** The result of a rejected input: nothing computed, no critical path. *)
Definition failed_result : CalculationResult.t :=
  CalculationResult.mk false "Validation failed" [] [] None 0 [].

(** A result for scenario A with the critical path from the source to the
    hydrant. *)
Definition scenarioA_result : CalculationResult.t :=
  CalculationResult.mk true "Calculation completed" []
    [NodeResult.mk "S" "source" 0 0 8 true 0;
     NodeResult.mk "J1" "junction" 0 0 7.5 true 50;
     NodeResult.mk "H1" "hydrant" 0 500 1.5 true 70]
    (Some (CriticalPath.mk ["S"; "J1"; "H1"]%string ["P1"; "P2"]%string
             70 "H1" 1.5))
    500 [].

(** A server that refuses every request with status 422 and a body whose
    [detail] carries a message. *)
Definition refusing_server (_ : Request.t) : outcome Response.t :=
  Returned
    (Response.mk false
       (Returned
          (JObject
             [("detail"%string,
               JObject [("message"%string,
                         JString "Network validation failed")])]))).

(** A transport that is down: every request is rejected. *)
Definition unreachable_server (_ : Request.t) : outcome Response.t :=
  Thrown Rejected.

(** An import file that sets the source pressure to zero and switches the
    elevation term off. *)
Definition zero_pressure_file : JSON :=
  JObject [("source_pressure_bar"%string, JNumber 0);
           ("include_elevation"%string, JBool false)].

Definition any_nodes (_ : JSON) : list Node.t := [].
Definition any_edges (_ : JSON) : list Edge.t := [].
Definition any_number (_ : JSON) : Q := 0.
Definition any_fluid (_ : JSON) : FluidProperties.t := DEFAULT_FLUID.
Definition any_boolean (_ : JSON) : bool := false.
Definition any_message (_ : JsError) : string := "Failed to fetch".

(** * Properties *)

(** ** Numbers, strings and lists *)

Lemma Qltb_lt (x y : Q) : Qltb x y = true <-> (x < y)%Q.
Proof.
  unfold Qltb. rewrite negb_true_iff, <- not_true_iff_false, Qle_bool_iff.
  split; [apply Qnot_le_lt | apply Qlt_not_le].
Qed.

Lemma Qltb_ge (x y : Q) : Qltb x y = false <-> (y <= x)%Q.
Proof.
  unfold Qltb. rewrite negb_false_iff. apply Qle_bool_iff.
Qed.

Lemma NodeType_eqb_eq (a b : NodeType) : NodeType_eqb a b = true <-> a = b.
Proof. destruct a, b; simpl; split; congruence. Qed.

Lemma NodeType_eqb_neq (a b : NodeType) : NodeType_eqb a b = false <-> a <> b.
Proof. destruct a, b; simpl; split; congruence. Qed.

Lemma filter_indexed_from_below {A : Type} (l : list A) (from index : nat) :
  (index < from)%nat ->
  filter_indexed_from (fun _ i => negb (i =? index)%nat) from l = l.
Proof.
  revert from. induction l as [|x l IH]; intros from Hlt; simpl.
  - reflexivity.
  - destruct (Nat.eqb_spec from index) as [->|_]; [lia|].
    simpl. f_equal. apply IH. lia.
Qed.

(** Filtering out one index removes the element at that index and nothing
    else. *)
Lemma filter_indexed_from_remove {A : Type} (l : list A) (from k : nat) :
  filter_indexed_from (fun _ i => negb (i =? from + k)%nat) from l
  = firstn k l ++ skipn (S k) l.
Proof.
  revert from k. induction l as [|x l IH]; intros from k; simpl.
  - now destruct k.
  - destruct k as [|k].
    + rewrite Nat.add_0_r, Nat.eqb_refl. simpl.
      apply filter_indexed_from_below. lia.
    + destruct (Nat.eqb_spec from (from + S k)) as [E|_]; [lia|].
      simpl. f_equal.
      replace (from + S k)%nat with (S from + k)%nat by lia.
      apply IH.
Qed.

Lemma filter_indexed_remove {A : Type} (l : list A) (index : nat) :
  filter_indexed (fun _ i => negb (i =? index)%nat) l
  = firstn index l ++ skipn (S index) l.
Proof. exact (filter_indexed_from_remove l 0 index). Qed.

Lemma unrelated_spec (nodeId : string) (e : Edge.t) :
  unrelated nodeId e = true
  <-> Edge.from_node e <> nodeId /\ Edge.to_node e <> nodeId.
Proof.
  unfold unrelated.
  rewrite andb_true_iff, !negb_true_iff, !String.eqb_neq. tauto.
Qed.

(** A node id other than the one at [index] survives the removal of
    [index]. *)
Lemma In_remove_index (l : list Node.t) (index : nat) (n : Node.t) (id : string) :
  nth_error l index = Some n ->
  id <> Node.node_id n ->
  In id (map Node.node_id l) ->
  In id (map Node.node_id (firstn index l ++ skipn (S index) l)).
Proof.
  revert index. induction l as [|x l IH]; intros index Hn Hid Hin.
  - destruct index; discriminate.
  - destruct index as [|index]; simpl in *.
    + injection Hn as ->. destruct Hin as [E|Hin]; [congruence|exact Hin].
    + destruct Hin as [E|Hin]; [now left|right]. now apply IH.
Qed.

Lemma In_remove_index_node (l : list Node.t) (index : nat) (n m : Node.t) :
  nth_error l index = Some n ->
  m <> n ->
  In m l ->
  In m (firstn index l ++ skipn (S index) l).
Proof.
  revert index. induction l as [|x l IH]; intros index Hn Hm Hin.
  - destruct index; discriminate.
  - destruct index as [|index]; simpl in *.
    + injection Hn as ->. destruct Hin as [E|Hin]; [congruence|exact Hin].
    + destruct Hin as [E|Hin]; [now left|right]. now apply IH.
Qed.

(** ** The editor *)

(** C10, as amended.  From every state [resetNetwork] sets the node list to
    the single source node "S" (elevation 0, demand 0, active), the edge list
    to empty, the source pressure to 8.0, the fluid to the default (density
    998.0, viscosity 0.001002), elevation inclusion to true, and clears result
    and error; these values do not depend on the prior state.  The loading
    flag and the active tab are not written: they keep their prior values, so
    the state after a reset is the initial state up to those two cells. *)
Theorem resetNetwork_resets_network_and_result (st : AppState) :
  nodes (resetNetwork st) = [Node.mk "S" source 0 0 true]
  /\ edges (resetNetwork st) = []
  /\ sourcePressure (resetNetwork st) = 8.0%Q
  /\ fluid (resetNetwork st) = FluidProperties.mk 998.0 0.001002
  /\ includeElevation (resetNetwork st) = true
  /\ result (resetNetwork st) = None
  /\ error (resetNetwork st) = None
  /\ loading (resetNetwork st) = loading st
  /\ activeTab (resetNetwork st) = activeTab st
  /\ resetNetwork st
     = setActiveTab (activeTab st) (setLoading (loading st) initialState).
Proof. repeat split. Qed.

(** C10, counterexample.  A reset while the demo network is loading does not
    give the initial state: the loading flag stays set. *)
Lemma resetNetwork_keeps_loading :
  resetNetwork (loadDemo_begin initialState) <> initialState
  /\ loading (resetNetwork (loadDemo_begin initialState)) = true
  /\ loading initialState = false.
Proof.
  split; [|split; reflexivity].
  intro H. apply (f_equal loading) in H. discriminate H.
Qed.

(** C9, as amended.  For a state and the index of one of its nodes:
    [removeNode] returns the state unchanged when that node is the source;
    otherwise it removes exactly the node at that index and every edge whose
    [from_node] or [to_node] equals its id, and nothing else.  If every edge
    named existing nodes before the call, so it does after it, and a source
    node present before is still present. *)
Theorem removeNode_spec (st : AppState) (index : nat) (n : Node.t) :
  nth_error (nodes st) index = Some n ->
  (Node.type n = source -> removeNode index st = Returned st)
  /\ (Node.type n <> source ->
      removeNode index st
      = Returned
          (setNodes (firstn index (nodes st) ++ skipn (S index) (nodes st))
             (setEdges
                (filter
                   (fun e =>
                      negb (Edge.from_node e =? Node.node_id n)%string
                      && negb (Edge.to_node e =? Node.node_id n)%string)
                   (edges st))
                st)))
  /\ (forall st', removeNode index st = Returned st' ->
      (forall e, In e (edges st') <->
                 In e (edges st) /\
                 (Node.type n = source \/
                  Edge.from_node e <> Node.node_id n /\
                  Edge.to_node e <> Node.node_id n))
      /\ (no_dangling_edge st -> no_dangling_edge st')
      /\ (has_source st -> has_source st')).
Proof.
  intros Hn. unfold removeNode. rewrite Hn.
  destruct (NodeType_eqb (Node.type n) source) eqn:Ht.
  - apply NodeType_eqb_eq in Ht.
    split; [reflexivity|]. split; [congruence|].
    intros st' [= <-]. split; [|tauto].
    intros e. tauto.
  - apply NodeType_eqb_neq in Ht.
    split; [congruence|]. rewrite filter_indexed_remove.
    split; [reflexivity|].
    intros st' [= <-]. simpl.
    assert (Hedges : forall e,
               In e (filter (unrelated (Node.node_id n)) (edges st)) <->
               In e (edges st) /\
               (Edge.from_node e <> Node.node_id n /\
                Edge.to_node e <> Node.node_id n)).
    { intros e. now rewrite filter_In, unrelated_spec. }
    split; [|split].
    + intros e. rewrite Hedges. tauto.
    + intros Hwf e He. unfold no_dangling_edge, node_ids in *. simpl in *.
      apply Hedges in He. destruct He as [He [Hfrom Hto]].
      destruct (Hwf e He) as [Hf Ht'].
      split; eapply In_remove_index; eauto.
    + intros [m [Hm Hsrc]]. exists m. simpl. split; [|exact Hsrc].
      eapply In_remove_index_node; eauto. congruence.
Qed.

(** C9, witness: the hydrant added to the initial network is removed again. *)
Lemma removeNode_spec_witness :
  nth_error (nodes (addNode hydrant initialState)) 1
  = Some (createEmptyNode "H1" hydrant)
  /\ removeNode 1 (addNode hydrant initialState) = Returned initialState.
Proof.
  split; [reflexivity|].
  destruct (removeNode_spec (addNode hydrant initialState) 1 eq_refl)
    as [_ [H _]].
  rewrite H; [reflexivity|discriminate].
Defined.

(** C9, counterexample.  In the initial network "Add Pipe" makes the pipe P1
    from "S" to the empty id, and "Hydrant" adds H1.  Removing H1 leaves P1 in
    place, which still names a node that does not exist. *)
Lemma removeNode_leaves_dangling_edge :
  removeNode 1 (addNode hydrant (addEdge initialState))
  = Returned (addEdge initialState)
  /\ In (createEmptyEdge "P1" "S" EmptyString) (edges (addEdge initialState))
  /\ ~ In (Edge.to_node (createEmptyEdge "P1" "S" EmptyString))
         (node_ids (addEdge initialState)).
Proof.
  split; [reflexivity|]. split; [now left|].
  simpl. intros [H|[]]. discriminate H.
Qed.

(** ** Sorting an array *)

Section ArraySortFacts.
Variable A : Type.
Variable comparefn : A -> A -> Q.
Variable R : A -> A -> Prop.
Hypothesis comparefn_le : forall x y, (comparefn x y <= 0)%Q -> R x y.
Hypothesis comparefn_gt : forall x y, ~ (comparefn x y <= 0)%Q -> R y x.
Hypothesis R_trans : forall x y z, R x y -> R y z -> R x z.

Lemma sort_insert_perm (x : A) (l : list A) :
  Permutation (sort_insert comparefn x l) (x :: l).
Proof.
  induction l as [|y l IH]; simpl.
  - reflexivity.
  - destruct (Qle_bool (comparefn x y) 0).
    + reflexivity.
    + rewrite IH. apply perm_swap.
Qed.

Lemma Array_sort_perm (l : list A) : Permutation (Array_sort comparefn l) l.
Proof.
  induction l as [|x l IH]; simpl.
  - reflexivity.
  - rewrite sort_insert_perm. now apply perm_skip.
Qed.

Lemma sort_insert_sorted (x : A) (l : list A) :
  StronglySorted R l -> StronglySorted R (sort_insert comparefn x l).
Proof.
  induction 1 as [|y l Hs IH Hy]; simpl.
  - repeat constructor.
  - destruct (Qle_bool (comparefn x y) 0) eqn:E.
    + apply Qle_bool_iff, comparefn_le in E.
      constructor; [now constructor|].
      constructor; [exact E|].
      eapply Forall_impl; [|exact Hy].
      intros z Hyz. now apply R_trans with y.
    + constructor; [exact IH|].
      apply (Permutation_Forall (x := x :: l)).
      * symmetry. apply sort_insert_perm.
      * constructor; [|exact Hy].
        apply comparefn_gt. rewrite <- Qle_bool_iff. congruence.
Qed.

Lemma Array_sort_sorted (l : list A) : StronglySorted R (Array_sort comparefn l).
Proof.
  induction l as [|x l IH]; simpl.
  - constructor.
  - now apply sort_insert_sorted.
Qed.
End ArraySortFacts.

(** ** The pressure chart *)

Lemma by_distance_le (a b : ChartDataPoint.t) :
  (by_distance a b <= 0)%Q -> nondecreasing_distance a b.
Proof. unfold by_distance, nondecreasing_distance. lra. Qed.

Lemma by_distance_gt (a b : ChartDataPoint.t) :
  ~ (by_distance a b <= 0)%Q -> nondecreasing_distance b a.
Proof. unfold by_distance, nondecreasing_distance. lra. Qed.

Lemma nondecreasing_distance_trans (a b c : ChartDataPoint.t) :
  nondecreasing_distance a b -> nondecreasing_distance b c ->
  nondecreasing_distance a c.
Proof. unfold nondecreasing_distance. lra. Qed.

(** The loop that pushes the points appends [matched_points] to what was
    collected before. *)
Lemma fold_push_point (nodes : list NodeResult.t) (path : list string)
    (data : list ChartDataPoint.t) :
  fold_left (push_point nodes) path data = data ++ matched_points nodes path.
Proof.
  revert data. induction path as [|nodeId path IH]; intros data; simpl.
  - now rewrite app_nil_r.
  - rewrite IH. unfold push_point.
    destruct (find_node nodes nodeId); [|reflexivity].
    now rewrite <- app_assoc.
Qed.

Lemma find_node_Some (nodes : list NodeResult.t) (nodeId : string)
    (nodeResult : NodeResult.t) :
  find_node nodes nodeId = Some nodeResult ->
  In nodeResult nodes /\ NodeResult.node_id nodeResult = nodeId.
Proof.
  intros H. apply find_some in H. now rewrite String.eqb_eq in H.
Qed.

Lemma find_node_occurs (nodes : list NodeResult.t) (nodeId : string) :
  occurs nodes nodeId = true <-> exists nodeResult, find_node nodes nodeId = Some nodeResult.
Proof.
  unfold occurs, find_node. induction nodes as [|n nodes IH]; simpl.
  - split; [discriminate|now intros [? ?]].
  - destruct (NodeResult.node_id n =? nodeId)%string; simpl.
    + split; eauto.
    + exact IH.
Qed.

(** The ids of the collected points are the path ids that occur among the
    node results, in path order. *)
Lemma matched_points_ids (nodes : list NodeResult.t) (path : list string) :
  map ChartDataPoint.nodeId (matched_points nodes path)
  = filter (occurs nodes) path.
Proof.
  induction path as [|nodeId path IH]; simpl.
  - reflexivity.
  - rewrite map_app, IH.
    destruct (find_node nodes nodeId) as [nodeResult|] eqn:F.
    + assert (O : occurs nodes nodeId = true) by (apply find_node_occurs; eauto).
      rewrite O. apply find_node_Some in F. simpl. now destruct F as [_ ->].
    + destruct (occurs nodes nodeId) eqn:O; [|reflexivity].
      apply find_node_occurs in O. destruct O as [? O]. congruence.
Qed.

Lemma chartData_present (result : CalculationResult.t) (cp : CriticalPath.t) :
  CalculationResult.critical_path result = Some cp ->
  chartData result
  = Array_sort by_distance
      (matched_points (CalculationResult.nodes result) (CriticalPath.path_nodes cp)).
Proof.
  intros H. unfold chartData. rewrite H. now rewrite fold_push_point.
Qed.

(** C7.  When the critical path of a result is null, the chart data is empty
    and the component renders the no-data placeholder; it reads nothing of the
    absent path and raises nothing. *)
Theorem PressureChart_absent_critical_path (result : CalculationResult.t) :
  CalculationResult.critical_path result = None ->
  chartData result = []
  /\ PressureChart result
     = NoDataPlaceholder "No data available for pressure chart".
Proof.
  intros H. unfold PressureChart, chartData. rewrite H. split; reflexivity.
Qed.

(** C7, witness: a failed calculation, with no nodes and no critical path. *)
Lemma PressureChart_absent_critical_path_witness :
  PressureChart failed_result
  = NoDataPlaceholder "No data available for pressure chart".
Proof.
  exact (proj2 (PressureChart_absent_critical_path failed_result eq_refl)).
Defined.

(** C8.  For a result with a critical path, the chart data holds exactly one
    point for every entry of [path_nodes] whose id occurs among the node
    results, namely the point of the first node result of that id; ids
    without a node result are skipped; and the points are in nondecreasing
    order of [distance_from_source_m], whatever the order of [path_nodes]. *)
Theorem chartData_points_sorted (result : CalculationResult.t) (cp : CriticalPath.t) :
  CalculationResult.critical_path result = Some cp ->
  Permutation (chartData result)
    (matched_points (CalculationResult.nodes result) (CriticalPath.path_nodes cp))
  /\ Permutation (map ChartDataPoint.nodeId (chartData result))
       (filter (occurs (CalculationResult.nodes result)) (CriticalPath.path_nodes cp))
  /\ length (chartData result)
     = length (filter (occurs (CalculationResult.nodes result))
                 (CriticalPath.path_nodes cp))
  /\ StronglySorted nondecreasing_distance (chartData result).
Proof.
  intros H. rewrite (chartData_present result H).
  assert (P : Permutation
                (Array_sort by_distance
                   (matched_points (CalculationResult.nodes result)
                      (CriticalPath.path_nodes cp)))
                (matched_points (CalculationResult.nodes result)
                   (CriticalPath.path_nodes cp)))
    by apply Array_sort_perm.
  split; [exact P|].
  assert (P' := Permutation_map ChartDataPoint.nodeId P).
  rewrite matched_points_ids in P'.
  split; [exact P'|]. split.
  - rewrite <- (Permutation_length P'). now rewrite length_map.
  - apply Array_sort_sorted with (R := nondecreasing_distance).
    + exact by_distance_le.
    + exact by_distance_gt.
    + exact nondecreasing_distance_trans.
Qed.

(** C8, witness: the path of [example_result] runs from the hydrant to the
    source and names the unknown id "X"; the chart has the three known nodes,
    from the source outwards. *)
Lemma chartData_points_sorted_witness :
  map ChartDataPoint.nodeId (chartData example_result) = ["S"; "J1"; "H1"]%string
  /\ StronglySorted nondecreasing_distance (chartData example_result).
Proof.
  split; [reflexivity|].
  exact (proj2 (proj2 (proj2
           (chartData_points_sorted example_result eq_refl)))).
Defined.

(** ** The results view *)

Lemma pathBadges_from_ids (cp : CriticalPath.t) (i : nat) (l : list string) :
  map PathBadge.nodeId (pathBadges_from cp i l) = l.
Proof.
  revert i. induction l as [|x l IH]; intros i; simpl.
  - reflexivity.
  - now rewrite IH.
Qed.

(** A critical path with an id that has a node result gives chart data. *)
Lemma chartData_nonempty (result : CalculationResult.t) (cp : CriticalPath.t)
    (nodeId : string) :
  CalculationResult.critical_path result = Some cp ->
  In nodeId (CriticalPath.path_nodes cp) ->
  occurs (CalculationResult.nodes result) nodeId = true ->
  chartData result <> [].
Proof.
  intros Hcp Hin Hocc E.
  rewrite (chartData_present result Hcp) in E.
  assert (P := Array_sort_perm by_distance
                 (matched_points (CalculationResult.nodes result)
                    (CriticalPath.path_nodes cp))).
  rewrite E in P. apply Permutation_nil in P.
  assert (F : In nodeId
                (filter (occurs (CalculationResult.nodes result))
                   (CriticalPath.path_nodes cp)))
    by (apply filter_In; split; assumption).
  rewrite <- matched_points_ids, P in F. exact F.
Qed.

(** C4.  The status cell of a node result shows "Negative!" exactly when its
    pressure is below 0, "Low" exactly when its pressure is at least 0 and
    below 2, and "OK" otherwise, that is exactly when it is at least 2; the
    row is tinted for negative pressure under the same test.  The pressure
    chart draws its warning reference line at the same threshold: for every
    result whose critical path names a node that has a node result, the
    component renders the line chart of the chart data with the warning line
    at 2; and whenever it renders a line chart the warning line is at 2, the
    boundary between "Low" and "OK". *)
Theorem pressure_status_thresholds :
  (forall node : NodeResult.t,
     (nodeStatus node = Negative <-> (NodeResult.pressure_bar node < 0)%Q)
     /\ (nodeStatus node = Low <->
         (0 <= NodeResult.pressure_bar node)%Q
         /\ (NodeResult.pressure_bar node < 2)%Q)
     /\ (nodeStatus node = OK <-> (2 <= NodeResult.pressure_bar node)%Q)
     /\ (rowClass node = "bg-red-50"%string <-> nodeStatus node = Negative))
  /\ (forall result cp nodeId,
       CalculationResult.critical_path result = Some cp ->
       In nodeId (CriticalPath.path_nodes cp) ->
       occurs (CalculationResult.nodes result) nodeId = true ->
       exists zeroLine,
         PressureChart result = LineChart (chartData result) 2 zeroLine
         /\ chartData result <> [])
  /\ (forall result data warningLine zeroLine,
       PressureChart result = LineChart data warningLine zeroLine ->
       warningLine = 2%Q
       /\ forall node : NodeResult.t,
           nodeStatus node = OK <-> (warningLine <= NodeResult.pressure_bar node)%Q).
Proof.
  assert (S : forall node : NodeResult.t,
             (nodeStatus node = Negative <-> (NodeResult.pressure_bar node < 0)%Q)
             /\ (nodeStatus node = Low <->
                 (0 <= NodeResult.pressure_bar node)%Q
                 /\ (NodeResult.pressure_bar node < 2)%Q)
             /\ (nodeStatus node = OK <-> (2 <= NodeResult.pressure_bar node)%Q)
             /\ (rowClass node = "bg-red-50"%string <-> nodeStatus node = Negative)).
  { intros node. unfold nodeStatus, rowClass.
    destruct (Qltb (NodeResult.pressure_bar node) 0) eqn:E0;
      destruct (Qltb (NodeResult.pressure_bar node) 2) eqn:E2;
      try apply Qltb_lt in E0; try apply Qltb_ge in E0;
      try apply Qltb_lt in E2; try apply Qltb_ge in E2;
      repeat split; intros; try discriminate; try lra; auto. }
  split; [exact S|]. split.
  - intros result cp nodeId Hcp Hin Hocc.
    assert (Hne := chartData_nonempty result nodeId Hcp Hin Hocc).
    unfold PressureChart. destruct (chartData result) as [|d ds];
      [contradiction|].
    eexists. split; [reflexivity|discriminate].
  - intros result data warningLine zeroLine H.
    unfold PressureChart in H. destruct (chartData result); [discriminate|].
    injection H as _ <- _. split; [reflexivity|].
    intros node. apply S.
Qed.

(** C4, witness: for the result of scenario A, whose critical path ends at
    the hydrant H1, the chart is drawn with the warning line at 2. *)
Lemma pressure_status_thresholds_witness :
  exists zeroLine,
    PressureChart scenarioA_result
    = LineChart (chartData scenarioA_result) 2 zeroLine
    /\ chartData scenarioA_result <> [].
Proof.
  apply (proj1 (proj2 pressure_status_thresholds) scenarioA_result
           (CriticalPath.mk ["S"; "J1"; "H1"]%string ["P1"; "P2"]%string
              70 "H1" 1.5)
           "H1"%string eq_refl).
  - simpl. auto.
  - reflexivity.
Defined.

(** C5.  A calculation result is made of exactly its seven fields: success,
    message, segments, nodes, critical path, total demand and warnings; its
    critical path is absent or present.  Each place of the client that reads
    the critical path (the critical-hydrant card, the critical-path panel, the
    chart panel and the chart data) allows for its absence: with no critical
    path the three blocks are not rendered and the chart data is empty; with a
    critical path they show its fields. *)
Theorem CalculationResult_shape (result : CalculationResult.t) :
  result
  = CalculationResult.mk
      (CalculationResult.success result)
      (CalculationResult.message result)
      (CalculationResult.segments result)
      (CalculationResult.nodes result)
      (CalculationResult.critical_path result)
      (CalculationResult.total_demand_lpm result)
      (CalculationResult.warnings result)
  /\ (CalculationResult.critical_path result = None
      \/ exists cp, CalculationResult.critical_path result = Some cp)
  /\ (CalculationResult.critical_path result = None ->
      criticalCard result = None
      /\ criticalPathPanel result = None
      /\ chartPanel result = None
      /\ chartData result = [])
  /\ (forall cp, CalculationResult.critical_path result = Some cp ->
      (exists card,
          criticalCard result = Some card
          /\ CriticalCard.critical_hydrant card = CriticalPath.critical_hydrant cp
          /\ CriticalCard.critical_pressure_bar card
             = CriticalPath.critical_pressure_bar cp)
      /\ (exists badges,
             criticalPathPanel result = Some (badges, CriticalPath.total_length_m cp)
             /\ map PathBadge.nodeId badges = CriticalPath.path_nodes cp)
      /\ chartPanel result = Some (PressureChart result)).
Proof.
  split; [now destruct result|].
  split; [destruct (CalculationResult.critical_path result); eauto|].
  unfold criticalCard, criticalPathPanel, chartPanel, chartData.
  split.
  - intros ->. repeat split.
  - intros cp ->. split; [eexists; repeat split|]. split; [|reflexivity].
    eexists. split; [reflexivity|]. apply pathBadges_from_ids.
Qed.

(** ** The API client *)

(** C6, as amended.  [validateNetwork] posts the serialised network, the same
    payload, method and headers as [calculateNetwork], to the validate
    endpoint.  When the response is ok it returns the parsed body as it is,
    with no solving, no transformation and no check of its shape: the value
    is an object of exactly an [is_valid] boolean and a list of error strings
    when the server answered with one, and when the body cannot be parsed the
    call rejects.  When the response is not ok it throws
    [Error('Validation request failed')] and returns nothing. *)
Theorem validateNetwork_contract
    (fetch : Request.t -> outcome Response.t)
    (JSON_stringify : NetworkInput.t -> string)
    (network : NetworkInput.t) (response : Response.t) :
  fetch (validateRequest JSON_stringify network) = Returned response ->
  Request.body (validateRequest JSON_stringify network)
  = Some (JSON_stringify network)
  /\ Request.body (validateRequest JSON_stringify network)
     = Request.body (calculateRequest JSON_stringify network)
  /\ Request.method (validateRequest JSON_stringify network)
     = Request.method (calculateRequest JSON_stringify network)
  /\ Request.headers (validateRequest JSON_stringify network)
     = Request.headers (calculateRequest JSON_stringify network)
  /\ Request.url (validateRequest JSON_stringify network) = "/api/validate"%string
  /\ (Response.ok response = true ->
      validateNetwork fetch JSON_stringify network = Response.json response
      /\ (forall body : JSON,
             Response.json response = Returned body ->
             validateNetwork fetch JSON_stringify network = Returned body)
      /\ (forall err : JsError,
             Response.json response = Thrown err ->
             validateNetwork fetch JSON_stringify network = Thrown err)
      /\ (forall v : ValidationResponse.t,
             Response.json response = Returned (ValidationResponse_to_json v) ->
             validateNetwork fetch JSON_stringify network
             = Returned
                 (JObject
                    [("is_valid"%string, JBool (ValidationResponse.is_valid v));
                     ("errors"%string,
                      JArray (map JString (ValidationResponse.errors v)))])))
  /\ (Response.ok response = false ->
      validateNetwork fetch JSON_stringify network
      = Thrown (Error "Validation request failed")).
Proof.
  intros Hfetch. repeat (split; [reflexivity|]).
  unfold validateNetwork. rewrite Hfetch. simpl. split.
  - intros ->. simpl. split; [reflexivity|].
    split; [now intros body ->|]. split; [now intros err ->|].
    now intros v ->.
  - now intros ->.
Qed.

(** C6, witness: against a server that answers with the verdict of scenario
    B, validating scenario A returns that verdict. *)
Lemma validateNetwork_contract_witness :
  validateNetwork answering_server (fun _ => "{}"%string) scenarioA
  = Returned (ValidationResponse_to_json scenarioB_verdict).
Proof.
  destruct (validateNetwork_contract answering_server (fun _ => "{}"%string)
              scenarioA eq_refl) as (_ & _ & _ & _ & _ & H & _).
  destruct (H eq_refl) as [H' _]. exact H'.
Defined.

(** C6, counterexample.  A successful response does not make the returned
    value a validation result: when the server answers 200 with the empty
    object, [validateNetwork] returns the empty object, which has neither an
    [is_valid] nor an [errors] member; and when the body of a 200 response is
    not JSON, [validateNetwork] returns nothing and rejects. *)
Lemma validateNetwork_unchecked_body :
  validateNetwork empty_object_server (fun _ => "{}"%string) scenarioA
  = Returned (JObject [])
  /\ member "is_valid" (JObject []) = None
  /\ member "errors" (JObject []) = None
  /\ (forall v : ValidationResponse.t,
         JObject [] <> ValidationResponse_to_json v)
  /\ validateNetwork unparsable_server (fun _ => "{}"%string) scenarioA
     = Thrown Rejected.
Proof.
  repeat split. intros v H. discriminate H.
Qed.

(** ** The solver: minor loss *)

(** C3.  The total minor-loss coefficient of a segment is the sum of the K
    values of its component list when that list is not empty, and the scalar
    [minor_K] when the list is empty or absent; the minor loss is that
    coefficient times the dynamic pressure. *)
Theorem K_total_override (e : Edge.t) :
  (forall c cs,
      Edge.minor_components e = Some (c :: cs) ->
      Solver.K_total e = Qsum (map MinorLossComponent.K (c :: cs)))
  /\ (Edge.minor_components e = Some [] \/ Edge.minor_components e = None ->
      Solver.K_total e = Edge.minor_K e)
  /\ (forall rho v,
         Solver.delta_p_minor e rho v = (Solver.K_total e * (rho * (v * v) / 2))%Q).
Proof.
  unfold Solver.K_total. split; [|split].
  - now intros c cs ->.
  - now intros [-> | ->].
  - reflexivity.
Qed.

(** ** The solver: critical hydrant *)

Lemma string_ltb_lt (s1 s2 : string) :
  String.ltb s1 s2 = true <-> String_as_OT.lt s1 s2.
Proof.
  rewrite <- String_as_OT.cmp_lt. unfold String.ltb, String_as_OT.cmp.
  destruct (String.compare s1 s2); split; congruence.
Qed.

Lemma string_lt_total (s1 s2 : string) :
  String_as_OT.lt s1 s2 \/ s1 = s2 \/ String_as_OT.lt s2 s1.
Proof.
  destruct (String_as_OT.compare s1 s2); auto.
Qed.

Lemma string_ltb_false_leb (s1 s2 : string) :
  String.ltb s1 s2 = false -> String.leb s2 s1 = true.
Proof.
  unfold String.ltb, String.leb. rewrite (String.compare_antisym s1 s2).
  now destruct (String.compare s2 s1).
Qed.

Lemma precedes_spec (a b : NodeResult.t) :
  Solver.precedes a b = true <->
  (NodeResult.pressure_bar a < NodeResult.pressure_bar b)%Q
  \/ (NodeResult.pressure_bar a == NodeResult.pressure_bar b
      /\ String_as_OT.lt (NodeResult.node_id a) (NodeResult.node_id b)).
Proof.
  unfold Solver.precedes.
  now rewrite orb_true_iff, andb_true_iff, Qltb_lt, Qeq_bool_iff, string_ltb_lt.
Qed.

Lemma precedes_trans (a b c : NodeResult.t) :
  Solver.precedes a b = true -> Solver.precedes b c = true ->
  Solver.precedes a c = true.
Proof.
  rewrite !precedes_spec. intros [H1 | [H1 L1]] [H2 | [H2 L2]].
  - left. lra.
  - left. lra.
  - left. lra.
  - right. split; [lra|]. eapply String_as_OT.lt_trans; eauto.
Qed.

(** The order is total up to ties: what precedes [c] precedes [b], unless [b]
    precedes [c]. *)
Lemma precedes_between (a b c : NodeResult.t) :
  Solver.precedes a c = true ->
  Solver.precedes a b = true \/ Solver.precedes b c = true.
Proof.
  rewrite !precedes_spec. intros H.
  destruct (Q_dec (NodeResult.pressure_bar a) (NodeResult.pressure_bar b))
    as [[Hlt | Hgt] | Heq].
  - auto.
  - right. left. destruct H as [H | [H _]]; lra.
  - destruct H as [H | [H L]].
    + right. left. lra.
    + destruct (string_lt_total (NodeResult.node_id a) (NodeResult.node_id b))
        as [L' | [E | L']].
      * left. right. split; assumption.
      * right. right. split; [lra|]. now rewrite <- E.
      * right. right. split; [lra|]. eapply String_as_OT.lt_trans; eauto.
Qed.

Lemma precedes_false (n h : NodeResult.t) :
  Solver.precedes n h = false ->
  (NodeResult.pressure_bar h <= NodeResult.pressure_bar n)%Q
  /\ (NodeResult.pressure_bar n == NodeResult.pressure_bar h ->
      String.leb (NodeResult.node_id h) (NodeResult.node_id n) = true).
Proof.
  unfold Solver.precedes. rewrite orb_false_iff, andb_false_iff.
  intros [Hp Hs]. apply Qltb_ge in Hp. split; [exact Hp|].
  intros E. apply string_ltb_false_leb.
  destruct Hs as [Hs | Hs]; [|exact Hs].
  apply Qeq_bool_neq in Hs. contradiction.
Qed.

Lemma precedes_irrefl (a : NodeResult.t) : Solver.precedes a a = false.
Proof.
  apply not_true_iff_false. rewrite precedes_spec. intros [H | [_ H]].
  - lra.
  - apply String_as_OT.lt_not_eq in H. now apply H.
Qed.

(** What one pass of [select] over [nodes] has, starting from [best]: the
    node it keeps is an active hydrant that no active hydrant met so far
    precedes. *)
Lemma fold_select_spec (nodes : list NodeResult.t) (best : option NodeResult.t) :
  (forall b, best = Some b -> Solver.candidate b = true) ->
  match fold_left Solver.select nodes best with
  | None =>
      best = None /\ forall n, In n nodes -> Solver.candidate n = false
  | Some h =>
      Solver.candidate h = true
      /\ (In h nodes \/ best = Some h)
      /\ (forall n, In n nodes -> Solver.candidate n = true ->
                    Solver.precedes n h = false)
      /\ (forall b, best = Some b -> Solver.precedes b h = false)
  end.
Proof.
  revert best. induction nodes as [|x l IH]; intros best Hbest; simpl.
  - destruct best as [b|]; [|now split].
    split; [now apply Hbest|]. split; [now right|]. split; [now intros ? []|].
    intros b' [= <-]. apply precedes_irrefl.
  - assert (Hsel : forall b, Solver.select best x = Some b ->
                             Solver.candidate b = true).
    { unfold Solver.select. intros b.
      destruct (Solver.candidate x) eqn:Cx; [|now apply Hbest].
      destruct best as [b0|]; [destruct (Solver.precedes x b0)|];
        intros [= <-]; auto. }
    specialize (IH (Solver.select best x) Hsel). clear Hsel.
    remember (Solver.select best x) as best' eqn:Esel.
    unfold Solver.select in Esel.
    destruct (Solver.candidate x) eqn:Cx.
    + destruct best as [b0|]; [destruct (Solver.precedes x b0) eqn:Pxb|];
        subst best'.
      * (* [x] replaces [b0] *)
        destruct (fold_left Solver.select l (Some x)) as [h|];
          [|destruct IH; discriminate].
        destruct IH as (Ch & Hin & Hmin & Hb).
        specialize (Hb x eq_refl).
        split; [exact Ch|]. split; [destruct Hin as [?|[= ->]]; auto|].
        split.
        -- intros n [<- | Hn] Cn; [exact Hb|now apply Hmin].
        -- intros b [= <-]. apply not_true_iff_false. intros E.
           rewrite (precedes_trans _ _ _ Pxb E) in Hb. discriminate.
      * (* [b0] stays *)
        destruct (fold_left Solver.select l (Some b0)) as [h|];
          [|destruct IH; discriminate].
        destruct IH as (Ch & Hin & Hmin & Hb).
        specialize (Hb b0 eq_refl).
        split; [exact Ch|]. split; [destruct Hin as [?|?]; auto|].
        split.
        -- intros n [<- | Hn] Cn; [|now apply Hmin].
           apply not_true_iff_false. intros E.
           destruct (precedes_between x b0 h E); congruence.
        -- now intros b [= <-].
      * destruct (fold_left Solver.select l (Some x)) as [h|];
          [|destruct IH; discriminate].
        destruct IH as (Ch & Hin & Hmin & Hb).
        specialize (Hb x eq_refl).
        split; [exact Ch|]. split; [destruct Hin as [?|[= ->]]; auto|].
        split; [|discriminate].
        intros n [<- | Hn] Cn; [exact Hb|now apply Hmin].
    + subst best'. destruct (fold_left Solver.select l best) as [h|].
      * destruct IH as (Ch & Hin & Hmin & Hb).
        split; [exact Ch|]. split; [destruct Hin as [?|?]; auto|].
        split; [|exact Hb].
        intros n [<- | Hn] Cn; [congruence|now apply Hmin].
      * destruct IH as [Hnone Hall]. split; [exact Hnone|].
        intros n [<- | Hn]; auto.
Qed.

Lemma In_same_key {A K : Type} (f : A -> K) (l : list A) (a b : A) :
  NoDup (map f l) -> In a l -> In b l -> f a = f b -> a = b.
Proof.
  induction l as [|x l IH]; simpl; intros Hnd Ha Hb E; [contradiction|].
  inversion Hnd as [|? ? Hx Hnd']; subst.
  destruct Ha as [-> | Ha], Hb as [-> | Hb]; auto.
  - exfalso. apply Hx. rewrite E. now apply in_map.
  - exfalso. apply Hx. rewrite <- E. now apply in_map.
Qed.

(** C1.  The Critical Path Finder selects, among the node results of kind
    hydrant with active = true, one of minimum pressure, and among those of
    that minimum pressure the one with the smallest id in lexicographic
    order.  The choice is unique: every node that meets this description has
    the id and the pressure of the selected one, and is the selected one when
    ids are unique.  With no active hydrant nothing is selected. *)
Theorem critical_hydrant_selection (nodes : list NodeResult.t) :
  match Solver.critical_hydrant nodes with
  | Some h =>
      Solver.is_critical nodes h
      /\ (forall h', Solver.is_critical nodes h' ->
                     NodeResult.node_id h' = NodeResult.node_id h
                     /\ NodeResult.pressure_bar h' == NodeResult.pressure_bar h)
      /\ (NoDup (map NodeResult.node_id nodes) ->
          forall h', Solver.is_critical nodes h' -> h' = h)
  | None => forall n, In n nodes -> Solver.candidate n = false
  end.
Proof.
  unfold Solver.critical_hydrant.
  assert (H := fold_select_spec nodes (best := None)).
  destruct (fold_left Solver.select nodes None) as [h|].
  - destruct H as (Ch & Hin & Hmin & _); [discriminate|].
    destruct Hin as [Hin | ?]; [|discriminate].
    assert (Hc : Solver.is_critical nodes h).
    { split; [exact Hin|]. split; [exact Ch|].
      intros n Hn Cn. apply precedes_false. now apply Hmin. }
    assert (Hu : forall h', Solver.is_critical nodes h' ->
                   NodeResult.node_id h' = NodeResult.node_id h
                   /\ NodeResult.pressure_bar h' == NodeResult.pressure_bar h).
    { intros h' (Hin' & Ch' & Hmin').
      destruct Hc as (_ & _ & Hmin0).
      destruct (Hmin0 h' Hin' Ch') as [P1 T1].
      destruct (Hmin' h Hin Ch) as [P2 T2].
      assert (E : NodeResult.pressure_bar h' == NodeResult.pressure_bar h) by lra.
      split; [|exact E].
      apply String.leb_antisym; [apply T2; lra|apply T1; exact E]. }
    split; [exact Hc|]. split; [exact Hu|].
    intros Hnd h' Hc'.
    apply (In_same_key NodeResult.node_id nodes); auto.
    + now destruct Hc'.
    + now apply Hu.
  - destruct H as [_ H]; [discriminate|exact H].
Qed.

(** ** The solver: flow distribution *)

Import Solver.

Lemma Tree_induction (P : Tree -> Prop) :
  (forall n cs, Forall (fun ec => P (snd ec)) cs -> P (TNode n cs)) ->
  forall t, P t.
Proof.
  intros H. fix IH 1. intros [n cs]. apply H.
  induction cs as [|ec cs IHcs]; constructor.
  - apply IH.
  - exact IHcs.
Qed.

Lemma fold_Qplus_shift (l : list Q) (a : Q) :
  fold_left Qplus l a == a + Qsum l.
Proof.
  unfold Qsum. revert a. induction l as [|x l IH]; intros a; simpl.
  - lra.
  - rewrite (IH (a + x)), (IH (0 + x)). lra.
Qed.

Lemma Qsum_cons (x : Q) (l : list Q) : Qsum (x :: l) == x + Qsum l.
Proof.
  unfold Qsum at 1. simpl. rewrite fold_Qplus_shift. lra.
Qed.

Lemma Qsum_app (l1 l2 : list Q) : Qsum (l1 ++ l2) == Qsum l1 + Qsum l2.
Proof.
  induction l1 as [|x l1 IH]; simpl.
  - unfold Qsum at 2. simpl. lra.
  - rewrite !Qsum_cons, IH. lra.
Qed.

(** The traversal of the children, from any accumulator: the demand grows by
    the demands of the children, and each child contributes the flows inside
    it followed by the flow of the segment that leads to it. *)
Lemma distribute_children (cs : list (Edge.t * Tree)) (acc : Q * list (string * Q)) :
  let r :=
    fold_left
      (fun acc ec =>
         (fst acc + fst (distribute (snd ec)),
          snd acc ++ snd (distribute (snd ec))
          ++ [(Edge.edge_id (fst ec), fst (distribute (snd ec)))]))
      cs acc in
  fst r == fst acc + Qsum (map (fun ec => total_demand (snd ec)) cs)
  /\ snd r
     = snd acc
       ++ flat_map
            (fun ec => flows (snd ec)
                       ++ [(Edge.edge_id (fst ec), total_demand (snd ec))])
            cs.
Proof.
  revert acc. induction cs as [|ec cs IH]; intros acc; simpl.
  - split; [unfold Qsum; simpl; lra|now rewrite app_nil_r].
  - destruct (IH (fst acc + fst (distribute (snd ec)),
                  snd acc ++ snd (distribute (snd ec))
                  ++ [(Edge.edge_id (fst ec), fst (distribute (snd ec)))]))
      as [H1 H2].
    simpl in H1, H2. split.
    + rewrite H1, Qsum_cons. unfold total_demand. lra.
    + rewrite H2. unfold flows, total_demand. now rewrite <- !app_assoc.
Qed.

Lemma total_demand_node (n : Node.t) (cs : list (Edge.t * Tree)) :
  total_demand (TNode n cs)
  == own_demand n + Qsum (map (fun ec => total_demand (snd ec)) cs).
Proof.
  unfold total_demand at 1. simpl.
  exact (proj1 (distribute_children cs (own_demand n, []))).
Qed.

Lemma flows_node (n : Node.t) (cs : list (Edge.t * Tree)) :
  flows (TNode n cs)
  = flat_map
      (fun ec => flows (snd ec)
                 ++ [(Edge.edge_id (fst ec), total_demand (snd ec))])
      cs.
Proof.
  unfold flows at 1. simpl.
  exact (proj2 (distribute_children cs (own_demand n, []))).
Qed.

(** The flows are the segments in post-order, each with the demand that the
    traversal found below it. *)
Lemma flows_segments (t : Tree) :
  flows t
  = map (fun ec => (Edge.edge_id (fst ec), total_demand (snd ec))) (segments t).
Proof.
  induction t as [n cs IH] using Tree_induction.
  rewrite flows_node. simpl.
  induction IH as [|ec cs Hec _ IHcs]; simpl.
  - reflexivity.
  - rewrite !map_app, IHcs, Hec. reflexivity.
Qed.

(** The demand that the traversal finds below a node is the sum of the demand
    of the active hydrants of its subtree. *)
Lemma total_demand_active_demand_below (t : Tree) :
  total_demand t == active_demand_below t.
Proof.
  induction t as [n cs IH] using Tree_induction.
  rewrite total_demand_node. unfold active_demand_below. simpl.
  assert (Hcs :
    Qsum (map (fun ec => total_demand (snd ec)) cs)
    == Qsum (map Node.demand_lpm
               (filter is_active_hydrant
                  (flat_map (fun ec => subtree_nodes (snd ec)) cs)))).
  { induction IH as [|ec cs Hec _ IHcs]; simpl.
    - reflexivity.
    - rewrite filter_app, map_app, Qsum_app, Qsum_cons, IHcs, Hec.
      reflexivity. }
  unfold own_demand. destruct (is_active_hydrant n); simpl.
  - rewrite Qsum_cons, Hcs. reflexivity.
  - rewrite Hcs. lra.
Qed.

Lemma nodupb_NoDup (l : list string) : nodupb l = true -> NoDup l.
Proof.
  induction l as [|x l IH]; simpl; intros H.
  - constructor.
  - apply andb_true_iff in H. destruct H as [Hx Hl].
    constructor; [|now apply IH].
    intros Hin. apply negb_true_iff in Hx.
    assert (E : existsb (String.eqb x) l = true).
    { apply existsb_exists. exists x. split; [exact Hin|apply String.eqb_refl]. }
    congruence.
Qed.

Lemma validated_segment_ids (t : Tree) :
  validated t = true ->
  NoDup (map (fun ec => Edge.edge_id (fst ec)) (segments t)).
Proof.
  unfold validated. rewrite !andb_true_iff.
  intros H. apply nodupb_NoDup. tauto.
Qed.

Lemma flow_of_In (fl : list (string * Q)) (id : string) (q : Q) :
  NoDup (map fst fl) -> In (id, q) fl -> flow_of fl id = Some q.
Proof.
  unfold flow_of. induction fl as [|[k v] fl IH]; simpl; intros Hnd Hin.
  - contradiction.
  - inversion Hnd as [|? ? Hk Hnd']; subst.
    destruct Hin as [[= -> ->] | Hin].
    + now rewrite String.eqb_refl.
    + destruct (String.eqb_spec k id) as [-> | _].
      * exfalso. apply Hk. change id with (fst (id, q)). now apply in_map.
      * now apply IH.
Qed.

(** The segments below a segment of [t] are segments of [t]. *)
Lemma segments_below (t : Tree) (e : Edge.t) (c : Tree) :
  In (e, c) (segments t) -> incl (segments c) (segments t).
Proof.
  induction t as [n cs IH] using Tree_induction. simpl.
  intros Hin. apply in_flat_map in Hin. destruct Hin as [ec [Hec Hin]].
  intros s Hs. apply in_flat_map. exists ec. split; [exact Hec|].
  apply in_app_iff. left.
  apply in_app_iff in Hin. destruct Hin as [Hin | [E | []]].
  - rewrite Forall_forall in IH. exact (IH ec Hec Hin s Hs).
  - subst ec. exact Hs.
Qed.

Lemma children_segments (n : Node.t) (cs : list (Edge.t * Tree))
    (ec : Edge.t * Tree) :
  In ec cs -> In ec (segments (TNode n cs)).
Proof.
  intros H. simpl. apply in_flat_map. exists ec. split; [exact H|].
  apply in_app_iff. right. now left.
Qed.

(** In a validated tree the flow recorded under the id of a segment is the
    demand found below that segment. *)
Lemma flow_of_segment (t : Tree) (e : Edge.t) (c : Tree) :
  validated t = true ->
  In (e, c) (segments t) ->
  flow_of (flows t) (Edge.edge_id e) = Some (total_demand c).
Proof.
  intros Hv Hin. apply validated_segment_ids in Hv.
  apply flow_of_In.
  - rewrite flows_segments, map_map. exact Hv.
  - rewrite flows_segments.
    exact (in_map
             (fun ec : Edge.t * Tree =>
                (Edge.edge_id (fst ec), total_demand (snd ec)))
             _ _ Hin).
Qed.

Lemma Forall2_map_r {A B : Type} (P : A -> B -> Prop) (f : A -> B) (l : list A) :
  (forall a, In a l -> P a (f a)) -> Forall2 P l (map f l).
Proof.
  induction l as [|a l IH]; simpl; intros H; constructor; auto.
Qed.

(** C2, as amended.  In a validated tree, for every node with an incoming
    segment: the flow recorded for that segment equals the node's own demand
    (its demand when it is an active hydrant, zero otherwise) plus the sum of
    the flows recorded for its outgoing segments, so for a node that is not
    an active hydrant the flow in equals the sum of the flows out; and the
    flow of every segment equals the sum of the demand of the active hydrants
    in the subtree rooted at its downstream node. *)
Theorem flow_conservation (t : Tree) (e : Edge.t) (n : Node.t)
    (cs : list (Edge.t * Tree)) :
  validated t = true ->
  In (e, TNode n cs) (segments t) ->
  exists (q : Q) (qs : list Q),
    flow_of (flows t) (Edge.edge_id e) = Some q
    /\ Forall2
         (fun ec q' => flow_of (flows t) (Edge.edge_id (fst ec)) = Some q')
         cs qs
    /\ q == own_demand n + Qsum qs
    /\ (is_active_hydrant n = false -> q == Qsum qs)
    /\ q == active_demand_below (TNode n cs).
Proof.
  intros Hv Hin.
  exists (total_demand (TNode n cs)),
         (map (fun ec => total_demand (snd ec)) cs).
  split; [now apply flow_of_segment|]. split; [|split; [|split]].
  - apply Forall2_map_r. intros [e' c'] Hec. simpl.
    apply flow_of_segment; [exact Hv|].
    apply (segments_below t e (TNode n cs) Hin).
    now apply children_segments.
  - apply total_demand_node.
  - intros Hn. rewrite total_demand_node. unfold own_demand. rewrite Hn. lra.
  - apply total_demand_active_demand_below.
Qed.

(** C2, witness: in scenario A the segment P1 into the junction J1 carries
    the 500 of the hydrant H1 behind it. *)
Lemma flow_conservation_witness :
  validated scenarioA_tree = true
  /\ exists q, flow_of (flows scenarioA_tree) "P1" = Some q /\ q == 500.
Proof.
  split; [reflexivity|].
  destruct (flow_conservation scenarioA_tree scenarioA_P1
              (createEmptyNode "J1" junction)
              [(scenarioA_P2, TNode (createEmptyNode "H1" hydrant) [])]
              eq_refl (or_intror (or_introl eq_refl)))
    as (q & qs & H1 & _ & _ & _ & H5).
  exists q. split; [exact H1|]. rewrite H5. reflexivity.
Defined.

(** C2, counterexample.  In the validated line S --P1--> H1 --P2--> H2 the
    node H1 is not a leaf; its incoming segment P1 carries 800 while its only
    outgoing segment P2 carries 300. *)
Lemma flow_conservation_fails_at_interior_hydrant :
  validated interior_hydrant_tree = true
  /\ In (line_P1, TNode line_H1 [(line_P2, TNode line_H2 [])])
       (segments interior_hydrant_tree)
  /\ flow_of (flows interior_hydrant_tree) "P1" = Some 800
  /\ flow_of (flows interior_hydrant_tree) "P2" = Some 300
  /\ ~ 800 == Qsum [300].
Proof.
  split; [reflexivity|]. split; [simpl; auto|].
  split; [reflexivity|]. split; [reflexivity|].
  intros H. vm_compute in H. discriminate H.
Qed.

(** * Further properties of the client *)

(** ** The editor: adding, removing and updating *)

Lemma setEdges_same (st : AppState) : setEdges (edges st) st = st.
Proof. now destruct st. Qed.

Lemma setNodes_same (st : AppState) : setNodes (nodes st) st = st.
Proof. now destruct st. Qed.

Lemma firstn_skipn_beyond {A : Type} (l : list A) (index : nat) :
  (length l <= index)%nat -> firstn index l ++ skipn (S index) l = l.
Proof.
  intros H. rewrite firstn_all2 by exact H.
  rewrite skipn_all2 by lia. apply app_nil_r.
Qed.

Lemma firstn_skipn_last {A : Type} (l : list A) (x : A) :
  firstn (length l) (l ++ [x]) ++ skipn (S (length l)) (l ++ [x]) = l.
Proof.
  induction l as [|y l IH]; simpl.
  - reflexivity.
  - f_equal. exact IH.
Qed.

Lemma In_firstn_skipn {A : Type} (l : list A) (index : nat) (x : A) :
  In x (firstn index l ++ skipn (S index) l) -> In x l.
Proof.
  revert index. induction l as [|y l IH]; intros index H.
  - now destruct index.
  - destruct index as [|index]; simpl in *.
    + now right.
    + destruct H as [H | H]; [now left|right; eauto].
Qed.

(** X1.  The "Junction" and "Hydrant" buttons: [addNode] appends one node of the
    requested type, at elevation 0 and active, after the nodes that were
    there, and leaves the edges alone; edges that named existing nodes still
    do, and a source that was present still is. *)
Theorem addNode_extends (type : NodeType) (st : AppState) :
  (exists n,
      nodes (addNode type st) = nodes st ++ [n]
      /\ Node.type n = type
      /\ Node.elevation_m n = 0%Q
      /\ Node.is_active n = true)
  /\ edges (addNode type st) = edges st
  /\ (no_dangling_edge st -> no_dangling_edge (addNode type st))
  /\ (has_source st -> has_source (addNode type st)).
Proof.
  split; [eexists; repeat split|]. split; [reflexivity|]. split.
  - intros H e He. destruct (H e He) as [Hf Ht].
    unfold node_ids. simpl. rewrite map_app, !in_app_iff. auto.
  - intros [n [Hn Hs]]. exists n. simpl. rewrite in_app_iff. auto.
Qed.

(** X2.  "Add Pipe" with at least two nodes in the list: the new pipe is appended
    after the existing ones and runs from the first node of the list to the
    second, so it names existing nodes. *)
Theorem addEdge_endpoints (st : AppState) (a b : Node.t) (rest : list Node.t) :
  nodes st = a :: b :: rest ->
  exists e,
    edges (addEdge st) = edges st ++ [e]
    /\ Edge.from_node e = Node.node_id a
    /\ Edge.to_node e = Node.node_id b
    /\ nodes (addEdge st) = nodes st
    /\ (no_dangling_edge st -> no_dangling_edge (addEdge st)).
Proof.
  intros Hn. unfold addEdge. rewrite Hn. simpl.
  eexists. split; [reflexivity|]. simpl.
  split; [reflexivity|]. split; [reflexivity|]. split; [exact Hn|].
  intros Hwf e He. unfold no_dangling_edge, node_ids in *. simpl in *.
  apply in_app_iff in He. destruct He as [He | [<- | []]].
  - exact (Hwf e He).
  - rewrite Hn. simpl. auto.
Qed.

(** X2, witness. *)
Lemma addEdge_endpoints_witness :
  exists e,
    edges (addEdge (addNode hydrant initialState)) = [e]
    /\ Edge.from_node e = "S"%string /\ Edge.to_node e = "H1"%string.
Proof.
  destruct (addEdge_endpoints (addNode hydrant initialState) eq_refl)
    as (e & H1 & H2 & H3 & _).
  exists e. auto.
Defined.

(** X4.  The trash button of a pipe: [removeEdge] removes exactly the pipe at the
    index and never touches the nodes; for an index beyond the list it
    changes nothing (where [removeNode] raises); pipes that named existing
    nodes still do. *)
Theorem removeEdge_spec (index : nat) (st : AppState) :
  edges (removeEdge index st)
  = firstn index (edges st) ++ skipn (S index) (edges st)
  /\ nodes (removeEdge index st) = nodes st
  /\ ((index < length (edges st))%nat ->
      S (length (edges (removeEdge index st))) = length (edges st))
  /\ ((length (edges st) <= index)%nat -> removeEdge index st = st)
  /\ (no_dangling_edge st -> no_dangling_edge (removeEdge index st)).
Proof.
  assert (E : edges (removeEdge index st)
              = firstn index (edges st) ++ skipn (S index) (edges st))
    by apply filter_indexed_remove.
  split; [exact E|]. split; [reflexivity|]. split; [|split].
  - intros H. rewrite E, length_app, length_firstn, length_skipn. lia.
  - intros H. unfold removeEdge. rewrite filter_indexed_remove.
    rewrite firstn_skipn_beyond by exact H. apply setEdges_same.
  - intros Hwf e He. rewrite E in He. apply In_firstn_skipn in He.
    exact (Hwf e He).
Qed.

Lemma filter_all {A : Type} (p : A -> bool) (l : list A) :
  (forall x, In x l -> p x = true) -> filter p l = l.
Proof.
  induction l as [|x l IH]; simpl; intros H.
  - reflexivity.
  - rewrite (H x (or_introl eq_refl)). f_equal. apply IH. auto.
Qed.

(** X5.  Adding a junction or a hydrant and removing it again gives back the state
    before, provided no pipe already names the id that the new node
    receives. *)
Theorem removeNode_undoes_addNode (type : NodeType) (st : AppState) (n : Node.t) :
  type <> source ->
  nodes (addNode type st) = nodes st ++ [n] ->
  (forall e, In e (edges st) ->
     Edge.from_node e <> Node.node_id n /\ Edge.to_node e <> Node.node_id n) ->
  removeNode (length (nodes st)) (addNode type st) = Returned st.
Proof.
  intros Ht Hn He. unfold removeNode. rewrite Hn.
  rewrite nth_error_app2, Nat.sub_diag by lia. simpl.
  assert (Hty : Node.type n = type).
  { simpl in Hn. apply app_inv_head in Hn. now injection Hn as <-. }
  rewrite Hty. destruct (NodeType_eqb type source) eqn:E.
  - apply NodeType_eqb_eq in E. contradiction.
  - rewrite filter_indexed_remove, firstn_skipn_last.
    rewrite filter_all by (intros e H; apply unrelated_spec; auto).
    now destruct st.
Qed.

(** X5, witness. *)
Lemma removeNode_undoes_addNode_witness :
  removeNode 1 (addNode junction initialState) = Returned initialState.
Proof.
  apply (@removeNode_undoes_addNode junction initialState
           (createEmptyNode "J1" junction)).
  - discriminate.
  - reflexivity.
  - intros e [].
Defined.

Lemma replace_at_length {A : Type} (index : nat) (f : A -> A) (l : list A) :
  length (replace_at index f l) = length l.
Proof.
  revert index. induction l as [|x l IH]; intros [|index]; simpl; auto.
Qed.

Lemma replace_at_other {A : Type} (index i : nat) (f : A -> A) (l : list A) :
  i <> index -> nth_error (replace_at index f l) i = nth_error l i.
Proof.
  revert index i. induction l as [|x l IH]; intros [|index] [|i] H; simpl; auto.
  contradiction.
Qed.

Lemma replace_at_same {A : Type} (index : nat) (f : A -> A) (l : list A) (x : A) :
  nth_error l index = Some x -> nth_error (replace_at index f l) index = Some (f x).
Proof.
  revert index. induction l as [|y l IH]; intros [|index] H; simpl in *;
    try discriminate.
  - now injection H as ->.
  - now apply IH.
Qed.

Lemma replace_at_map {A B : Type} (g : A -> B) (index : nat) (f : A -> A)
    (l : list A) :
  (forall x, g (f x) = g x) -> map g (replace_at index f l) = map g l.
Proof.
  intros H. revert index. induction l as [|x l IH]; intros [|index]; simpl;
    try reflexivity.
  - now rewrite H.
  - now rewrite IH.
Qed.

Lemma In_replace_at {A : Type} (index : nat) (f : A -> A) (l : list A) (y : A) :
  In y (replace_at index f l) -> In y l \/ exists x, In x l /\ y = f x.
Proof.
  revert index. induction l as [|x l IH]; intros [|index]; simpl; try tauto.
  - intros [<- | H]; eauto.
  - intros [<- | H]; auto. destruct (IH index H) as [H' | [z [Hz ->]]]; eauto.
Qed.

(** X6.  Editing a field of a node.  For an index of the node list,
    [updateNode] produces a state in which the node at the index is rewritten
    and no other, the number of nodes is the same and the pipes are
    untouched (a rename is not followed into the pipes); an edit of any field
    but the id keeps every node id, so pipes that named existing nodes still
    do.  For an index at or past the end no node is rewritten: the list is
    extended by empty slots and an object with the edited field alone. *)
Theorem updateNode_spec (index : nat) (u : NodeUpdate) (st : AppState) :
  (forall n, nth_error (nodes st) index = Some n ->
     exists st',
       updateNode index u st = Rewritten st'
       /\ edges st' = edges st
       /\ length (nodes st') = length (nodes st)
       /\ nth_error (nodes st') index = Some (apply_NodeUpdate u n)
       /\ (forall i, i <> index ->
             nth_error (nodes st') i = nth_error (nodes st) i)
       /\ ((forall v, u <> set_node_id v) ->
           node_ids st' = node_ids st
           /\ (no_dangling_edge st -> no_dangling_edge st')))
  /\ (nth_error (nodes st) index = None ->
      updateNode index u st = Extended (index - length (nodes st)) u).
Proof.
  unfold updateNode. split.
  - intros n Hn.
    assert (Hlt : (index < length (nodes st))%nat)
      by (apply nth_error_Some; congruence).
    apply Nat.ltb_lt in Hlt. rewrite Hlt.
    eexists. split; [reflexivity|]. simpl. split; [reflexivity|].
    split; [apply replace_at_length|].
    split; [now apply replace_at_same|].
    split; [intros i Hi; now apply replace_at_other|].
    intros Hu.
    assert (Hids : node_ids (setNodes
                     (replace_at index (apply_NodeUpdate u) (nodes st)) st)
                   = node_ids st).
    { unfold node_ids. simpl. apply replace_at_map.
      intros x. destruct u; try reflexivity. now destruct (Hu value). }
    split; [exact Hids|].
    intros Hwf e He. rewrite Hids. exact (Hwf e He).
  - intros Hn. apply nth_error_None in Hn.
    destruct (Nat.ltb_spec index (length (nodes st))); [lia|reflexivity].
Qed.

(** X6, witness. *)
Lemma updateNode_spec_witness :
  exists st',
    updateNode 1 (set_demand_lpm 750) (addNode hydrant initialState)
    = Rewritten st'
    /\ nth_error (nodes st') 1
       = Some (Node.mk "H1" hydrant 0 750 true)
    /\ node_ids st' = ["S"; "H1"]%string.
Proof.
  destruct (proj1 (updateNode_spec 1 (set_demand_lpm 750)
                     (addNode hydrant initialState))
              (createEmptyNode "H1" hydrant) eq_refl)
    as (st' & H1 & _ & _ & H2 & _ & H3).
  exists st'. split; [exact H1|]. split; [exact H2|].
  destruct H3 as [H3 _]; [discriminate|exact H3].
Defined.

(** X7.  Editing a field of a pipe.  For an index of the pipe list,
    [updateEdge] produces a state in which the pipe at the index is rewritten
    and no other, the number of pipes is the same and the nodes are
    untouched; when the edit is not of an endpoint, or sets an endpoint to
    the id of an existing node, pipes that named existing nodes still do.
    For an index at or past the end no pipe is rewritten: the list is
    extended by empty slots and an object with the edited field alone. *)
Theorem updateEdge_spec (index : nat) (u : EdgeUpdate) (st : AppState) :
  (forall e, nth_error (edges st) index = Some e ->
     exists st',
       updateEdge index u st = Rewritten st'
       /\ nodes st' = nodes st
       /\ length (edges st') = length (edges st)
       /\ nth_error (edges st') index = Some (apply_EdgeUpdate u e)
       /\ (forall i, i <> index ->
             nth_error (edges st') i = nth_error (edges st) i)
       /\ (match u with
           | set_from_node v | set_to_node v => In v (node_ids st)
           | _ => True
           end ->
           no_dangling_edge st -> no_dangling_edge st'))
  /\ (nth_error (edges st) index = None ->
      updateEdge index u st = Extended (index - length (edges st)) u).
Proof.
  unfold updateEdge. split.
  - intros e0 He0.
    assert (Hlt : (index < length (edges st))%nat)
      by (apply nth_error_Some; congruence).
    apply Nat.ltb_lt in Hlt. rewrite Hlt.
    eexists. split; [reflexivity|]. simpl. split; [reflexivity|].
    split; [apply replace_at_length|].
    split; [now apply replace_at_same|].
    split; [intros i Hi; now apply replace_at_other|].
    intros Hu Hwf e He. unfold no_dangling_edge, node_ids in *. simpl in *.
    apply In_replace_at in He. destruct He as [He | [x [Hx ->]]].
    + exact (Hwf e He).
    + destruct (Hwf x Hx) as [Hf Ht]. destruct u; simpl; auto.
  - intros Hn. apply nth_error_None in Hn.
    destruct (Nat.ltb_spec index (length (edges st))); [lia|reflexivity].
Qed.

(** X7, witness. *)
Lemma updateEdge_spec_witness :
  exists st',
    updateEdge 0 (set_length_m 25) (addEdge (addNode hydrant initialState))
    = Rewritten st'
    /\ nodes st' = nodes (addNode hydrant initialState)
    /\ no_dangling_edge st'.
Proof.
  destruct (proj1 (updateEdge_spec 0 (set_length_m 25)
                     (addEdge (addNode hydrant initialState)))
              (createEmptyEdge "P1" "S" "H1") eq_refl)
    as (st' & H1 & Hn & _ & _ & _ & Hwf).
  exists st'. split; [exact H1|]. split; [exact Hn|].
  apply Hwf; [exact I|].
  intros e [<- | []]. simpl. auto.
Defined.

(** X8.  "Run Calculation" after a reset: the button is disabled, and stays
    disabled after adding only a node or only a pipe; once a node and a pipe
    are added it is enabled unless a request is in flight. *)
Theorem runDisabled_after_reset (st : AppState) (type : NodeType) :
  runDisabled (resetNetwork st) = true
  /\ runDisabled (addNode type (resetNetwork st)) = true
  /\ runDisabled (addEdge (resetNetwork st)) = true
  /\ runDisabled (addEdge (addNode type (resetNetwork st))) = loading st.
Proof.
  unfold runDisabled. simpl. repeat split.
  - now rewrite orb_true_r.
  - now rewrite orb_true_r.
  - now rewrite orb_true_r.
  - now rewrite !orb_false_r.
Qed.

Lemma string_of_nat_inj (a b : nat) : string_of_nat a = string_of_nat b -> a = b.
Proof.
  unfold string_of_nat. intros H.
  apply (f_equal NilEmpty.uint_of_string) in H. rewrite !NilEmpty.usu in H.
  injection H as H. apply (f_equal Nat.of_uint) in H.
  now rewrite !Unsigned.of_to in H.
Qed.

Lemma NoDup_map_injective {A B : Type} (f : A -> B) (l : list A) :
  (forall x y, f x = f y -> x = y) -> NoDup l -> NoDup (map f l).
Proof.
  intros Hf. induction 1 as [|x l Hx Hl IH]; simpl; constructor; auto.
  intros Hin. apply in_map_iff in Hin. destruct Hin as [y [E Hy]].
  apply Hf in E. now subst.
Qed.

Lemma addEdge_edges (st : AppState) :
  map Edge.edge_id (edges (addEdge st))
  = map Edge.edge_id (edges st)
    ++ [("P" ++ string_of_nat (length (edges st) + 1))%string].
Proof. unfold addEdge. simpl. now rewrite map_app. Qed.

(** X3.  Pipes added one after the other to a network without pipes are named P1,
    P2, ... in order, and no two of them share an id. *)
Theorem addEdge_fresh_ids (n : nat) (st : AppState) :
  edges st = [] ->
  map Edge.edge_id (edges (Nat.iter n addEdge st))
  = map (fun i => ("P" ++ string_of_nat i)%string) (seq 1 n)
  /\ NoDup (map Edge.edge_id (edges (Nat.iter n addEdge st))).
Proof.
  intros H0.
  assert (E : map Edge.edge_id (edges (Nat.iter n addEdge st))
              = map (fun i => ("P" ++ string_of_nat i)%string) (seq 1 n)).
  { induction n as [|n IH].
    - simpl. now rewrite H0.
    - change (Nat.iter (S n) addEdge st) with (addEdge (Nat.iter n addEdge st)).
      rewrite addEdge_edges, seq_S, map_app. simpl.
      replace (length (edges (Nat.iter n addEdge st)))
        with (length (map Edge.edge_id (edges (Nat.iter n addEdge st))))
        by apply length_map.
      rewrite IH, length_map, length_seq.
      now replace (n + 1)%nat with (S n) by lia. }
  split; [exact E|]. rewrite E.
  apply NoDup_map_injective; [|apply seq_NoDup].
  intros x y Hxy. injection Hxy as Hxy. now apply string_of_nat_inj.
Qed.

(** X3, witness. *)
Lemma addEdge_fresh_ids_witness :
  map Edge.edge_id (edges (Nat.iter 3 addEdge initialState))
  = ["P1"; "P2"; "P3"]%string.
Proof.
  exact (proj1 (addEdge_fresh_ids 3 initialState eq_refl)).
Defined.

(** ** The pressure chart: placeholder, axis and order *)

Lemma Array_sort_nil_iff {A : Type} (comparefn : A -> A -> Q) (l : list A) :
  Array_sort comparefn l = [] <-> l = [].
Proof.
  split; [|now intros ->].
  intros H. apply Permutation_nil. rewrite <- H. apply Array_sort_perm.
Qed.

Lemma filter_nil_iff {A : Type} (p : A -> bool) (l : list A) :
  filter p l = [] <-> forall x, In x l -> p x = false.
Proof.
  induction l as [|x l IH]; simpl.
  - split; [now intros _ ? []|reflexivity].
  - destruct (p x) eqn:E.
    + split; [discriminate|]. intros H. specialize (H x (or_introl eq_refl)).
      congruence.
    + rewrite IH. split.
      * intros H y [<- | Hy]; auto.
      * intros H y Hy. apply H. now right.
Qed.

(** X9.  The chart shows its placeholder exactly when there is no critical path or
    none of the ids on the critical path has a node result; a critical path
    of unknown ids is treated like an absent one. *)
Theorem PressureChart_placeholder_iff (result : CalculationResult.t) :
  (exists text, PressureChart result = NoDataPlaceholder text)
  <-> match CalculationResult.critical_path result with
      | None => True
      | Some cp =>
          forall nodeId, In nodeId (CriticalPath.path_nodes cp) ->
                         occurs (CalculationResult.nodes result) nodeId = false
      end.
Proof.
  assert (E : (exists text, PressureChart result = NoDataPlaceholder text)
              <-> chartData result = []).
  { unfold PressureChart. destruct (chartData result).
    - split; eauto.
    - split; [intros [? H]|]; discriminate. }
  rewrite E. destruct (CalculationResult.critical_path result) as [cp|] eqn:Hcp.
  - rewrite (chartData_present result Hcp), Array_sort_nil_iff.
    rewrite <- filter_nil_iff, <- matched_points_ids.
    split; [now intros ->|]. intros H. now apply map_eq_nil in H.
  - unfold chartData. rewrite Hcp. tauto.
Qed.

Lemma Math_min_lt_iff (l : list Q) (x c : Q) :
  (Math_min x l < c)%Q <-> (x < c)%Q \/ exists y, In y l /\ (y < c)%Q.
Proof.
  unfold Math_min. revert x. induction l as [|z l IH]; intros x; simpl.
  - split; [auto|]. intros [H | [y [[] _]]]. exact H.
  - rewrite IH, Q.min_lt_iff. split.
    + intros [[H | H] | [y [Hy H]]]; eauto.
    + intros [H | [y [[<- | Hy] H]]]; eauto.
Qed.

(** X11.  When the chart is drawn, the zero-gauge reference line is drawn exactly
    when some point of the chart has a pressure below 1 (not only when one is
    below 0). *)
Theorem PressureChart_zero_line (result : CalculationResult.t)
    (data : list ChartDataPoint.t) (warningLine : Q) (zeroLine : bool) :
  PressureChart result = LineChart data warningLine zeroLine ->
  (zeroLine = true
   <-> exists p, In p data /\ (ChartDataPoint.pressure p < 1)%Q).
Proof.
  unfold PressureChart. destruct (chartData result) as [|d ds]; [discriminate|].
  intros [= <- _ <-]. rewrite Qltb_lt, Math_min_lt_iff. split.
  - intros [H | [y [Hy H]]].
    + exists d. split; [now left|exact H].
    + apply in_map_iff in Hy. destruct Hy as [p [<- Hp]].
      exists p. split; [now right|exact H].
  - intros [p [[<- | Hp] H]]; [now left|right].
    exists (ChartDataPoint.pressure p). split; [now apply in_map|exact H].
Qed.

(** X11, witness. *)
Lemma PressureChart_zero_line_witness :
  ~ exists p, In p (chartData example_result)
              /\ (ChartDataPoint.pressure p < 1)%Q.
Proof.
  intros H.
  apply (PressureChart_zero_line example_result eq_refl) in H.
  discriminate H.
Defined.

Section ArraySortOrder.
Variable A : Type.
Variable comparefn : A -> A -> Q.

(** Elements that the comparator never puts after one another keep their
    order. *)
Lemma sort_insert_stable (P : A -> bool) (x : A) (l : list A) :
  (forall a b, P a = true -> P b = true -> (comparefn a b <= 0)%Q) ->
  filter P (sort_insert comparefn x l) = filter P (x :: l).
Proof.
  intros HP. induction l as [|y l IH]; simpl.
  - reflexivity.
  - destruct (Qle_bool (comparefn x y) 0) eqn:E; simpl.
    + reflexivity.
    + rewrite IH. simpl.
      destruct (P x) eqn:Px, (P y) eqn:Py; try reflexivity.
      assert (F := HP x y Px Py). apply Qle_bool_iff in F. congruence.
Qed.

Lemma Array_sort_stable (P : A -> bool) (l : list A) :
  (forall a b, P a = true -> P b = true -> (comparefn a b <= 0)%Q) ->
  filter P (Array_sort comparefn l) = filter P l.
Proof.
  intros HP. induction l as [|x l IH]; simpl.
  - reflexivity.
  - rewrite sort_insert_stable by exact HP. simpl. now rewrite IH.
Qed.

(** A list that is already in order is returned as it is. *)
Lemma Array_sort_sorted_id (R : A -> A -> Prop) (l : list A) :
  (forall a b, R a b -> (comparefn a b <= 0)%Q) ->
  StronglySorted R l -> Array_sort comparefn l = l.
Proof.
  intros HR. induction 1 as [|x l Hs IH Hx]; simpl.
  - reflexivity.
  - rewrite IH. destruct l as [|y l]; simpl; [reflexivity|].
    inversion Hx as [|? ? Hxy _]; subst.
    apply HR, Qle_bool_iff in Hxy. now rewrite Hxy.
Qed.
End ArraySortOrder.

(** X12.  The sort of the chart data is stable: the points at one distance from the
    source appear in the chart in the order of their ids on the critical
    path. *)
Theorem chartData_stable (result : CalculationResult.t) (cp : CriticalPath.t)
    (d : Q) :
  CalculationResult.critical_path result = Some cp ->
  filter (fun p => Qeq_bool (ChartDataPoint.distance p) d) (chartData result)
  = filter (fun p => Qeq_bool (ChartDataPoint.distance p) d)
      (matched_points (CalculationResult.nodes result)
         (CriticalPath.path_nodes cp)).
Proof.
  intros H. rewrite (chartData_present result H).
  apply Array_sort_stable. intros a b Ha Hb.
  apply Qeq_bool_iff in Ha, Hb. unfold by_distance. lra.
Qed.

(** X12, witness. *)
Lemma chartData_stable_witness :
  filter (fun p => Qeq_bool (ChartDataPoint.distance p) 50)
    (chartData example_result)
  = [ChartDataPoint.mk 50 7.5 "J1" "junction"].
Proof.
  rewrite (chartData_stable example_result 50 eq_refl). reflexivity.
Defined.

(** X13.  A critical path whose known nodes are listed in order of distance from
    the source, as a path from the source to the hydrant is, is charted in
    the order of the path: the sort changes nothing. *)
Theorem chartData_sorted_path (result : CalculationResult.t)
    (cp : CriticalPath.t) :
  CalculationResult.critical_path result = Some cp ->
  StronglySorted nondecreasing_distance
    (matched_points (CalculationResult.nodes result)
       (CriticalPath.path_nodes cp)) ->
  chartData result
  = matched_points (CalculationResult.nodes result)
      (CriticalPath.path_nodes cp).
Proof.
  intros H Hs. rewrite (chartData_present result H).
  apply Array_sort_sorted_id with (R := nondecreasing_distance); [|exact Hs].
  intros a b Hab. unfold nondecreasing_distance in Hab. unfold by_distance. lra.
Qed.

(** X13, witness. *)
Lemma chartData_sorted_path_witness :
  map ChartDataPoint.nodeId (chartData scenarioA_result)
  = ["S"; "J1"; "H1"]%string.
Proof.
  rewrite (chartData_sorted_path scenarioA_result eq_refl); [reflexivity|].
  repeat constructor; unfold nondecreasing_distance; simpl;
    apply Qle_bool_iff; reflexivity.
Defined.

(** ** The API client: failed and successful responses *)

(** X14.  [calculateNetwork] returns the parsed body of an ok response as it is,
    and never returns a value for a response that is not ok: it then throws,
    whatever the body is. *)
Theorem calculateNetwork_contract
    (fetch : Request.t -> outcome Response.t)
    (JSON_stringify : NetworkInput.t -> string) (ToString : JSON -> string)
    (network : NetworkInput.t) (response : Response.t) :
  fetch (calculateRequest JSON_stringify network) = Returned response ->
  (Response.ok response = true ->
   calculateNetwork fetch JSON_stringify ToString network
   = Response.json response)
  /\ (Response.ok response = false ->
      exists err,
        calculateNetwork fetch JSON_stringify ToString network = Thrown err).
Proof.
  intros Hf. unfold calculateNetwork. rewrite Hf. simpl. split.
  - now intros ->.
  - intros ->. simpl. destruct (Response.json response) as [error|e]; simpl.
    + destruct error; eauto.
    + eauto.
Qed.

(** X14, witness. *)
Lemma calculateNetwork_contract_witness :
  exists err,
    calculateNetwork refusing_server (fun _ => "{}"%string)
      (fun _ => "[object Object]"%string) scenarioA
    = Thrown err.
Proof.
  exact (proj2 (calculateNetwork_contract refusing_server
                  (fun _ => "{}"%string) (fun _ => "[object Object]"%string)
                  scenarioA eq_refl) eq_refl).
Defined.

(** X15.  The message of the error that [calculateNetwork] throws for a response
    that is not ok: the non-empty [detail.message] of the body if there is
    one; else [detail] itself if it is a non-empty string; and
    ['Calculation failed'] if the body has no [detail]. *)
Theorem calculateNetwork_error_message
    (fetch : Request.t -> outcome Response.t)
    (JSON_stringify : NetworkInput.t -> string) (ToString : JSON -> string)
    (network : NetworkInput.t) (response : Response.t)
    (members : list (string * JSON)) :
  fetch (calculateRequest JSON_stringify network) = Returned response ->
  Response.ok response = false ->
  Response.json response = Returned (JObject members) ->
  (forall detail message,
      member "detail" (JObject members) = Some detail ->
      member "message" detail = Some (JString message) ->
      message <> EmptyString ->
      calculateNetwork fetch JSON_stringify ToString network
      = Thrown (Error message))
  /\ (forall detail,
         member "detail" (JObject members) = Some (JString detail) ->
         detail <> EmptyString ->
         calculateNetwork fetch JSON_stringify ToString network
         = Thrown (Error detail))
  /\ (member "detail" (JObject members) = None ->
      calculateNetwork fetch JSON_stringify ToString network
      = Thrown (Error "Calculation failed")).
Proof.
  intros Hf Hok Hj. unfold calculateNetwork. rewrite Hf. simpl.
  rewrite Hok, Hj. simpl. split; [|split].
  - intros detail message Hd Hm Hne. simpl in Hd. rewrite Hd.
    assert (Hm' : match detail with
                  | JNull => None
                  | _ => member "message" detail
                  end = Some (JString message))
      by (destruct detail; try exact Hm; discriminate Hm).
    rewrite Hm'. unfold or_else at 1. simpl.
    apply String.eqb_neq in Hne. now rewrite Hne.
  - intros detail Hd Hne. simpl in Hd. rewrite Hd. simpl.
    unfold or_else. simpl. apply String.eqb_neq in Hne. now rewrite Hne.
  - intros Hd. simpl in Hd. rewrite Hd. reflexivity.
Qed.

(** X15, witness. *)
Lemma calculateNetwork_error_message_witness :
  calculateNetwork refusing_server (fun _ => "{}"%string)
    (fun _ => "[object Object]"%string) scenarioA
  = Thrown (Error "Network validation failed").
Proof.
  destruct (calculateNetwork_error_message refusing_server
              (fun _ => "{}"%string) (fun _ => "[object Object]"%string)
              scenarioA eq_refl eq_refl eq_refl) as [H _].
  apply (H (JObject [("message"%string, JString "Network validation failed")])).
  - reflexivity.
  - reflexivity.
  - discriminate.
Defined.

(** X16.  Against a server that answers every request with a response that is not
    ok, no function of the client returns a value: each of the fetchers of
    the demo network, of the K factors and of the two CSV exports throws its
    own fixed message, as [validateNetwork] does. *)
Theorem api_rejects_failed_responses
    (Blob : Type) (fetch : Request.t -> outcome Response.t)
    (JSON_stringify : NetworkInput.t -> string)
    (JSON_stringify_export : CalculationResult.t -> PressureUnit -> string)
    (blob : Response.t -> outcome Blob)
    (network : NetworkInput.t) (result : CalculationResult.t) :
  (forall request, exists response,
      fetch request = Returned response /\ Response.ok response = false) ->
  getDemoNetwork fetch = Thrown (Error "Failed to fetch demo network")
  /\ getKFactors fetch = Thrown (Error "Failed to fetch K-factors")
  /\ exportSegmentsCSV fetch JSON_stringify_export blob result
     = Thrown (Error "Failed to export segments CSV")
  /\ exportNodesCSV fetch JSON_stringify_export blob result
     = Thrown (Error "Failed to export nodes CSV")
  /\ validateNetwork fetch JSON_stringify network
     = Thrown (Error "Validation request failed").
Proof.
  intros H.
  unfold getDemoNetwork, getKFactors, exportSegmentsCSV, exportNodesCSV,
    validateNetwork.
  repeat split;
    match goal with
    | |- context [fetch ?r] =>
        destruct (H r) as [response [Hf Hok]];
        rewrite Hf; simpl; rewrite Hok; reflexivity
    end.
Qed.

(** X16, witness. *)
Lemma api_rejects_failed_responses_witness :
  getDemoNetwork refusing_server = Thrown (Error "Failed to fetch demo network").
Proof.
  refine (proj1 (@api_rejects_failed_responses unit refusing_server
                   (fun _ => "{}"%string) (fun _ _ => "{}"%string)
                   (fun _ => Returned tt) scenarioA failed_result _)).
  intros request. eexists. split; reflexivity.
Defined.

(** ** The editor: requests and imports *)


Section AppEffectsFacts.
Variable fetch : Request.t -> outcome Response.t.
Variable JSON_stringify : NetworkInput.t -> string.
Variable ToString : JSON -> string.
Variable engine_message : JsError -> string.
Variable as_CalculationResult : JSON -> CalculationResult.t.
Variable as_NetworkInput : JSON -> NetworkInput.t.
Variable as_nodes : JSON -> list Node.t.
Variable as_edges : JSON -> list Edge.t.
Variable as_number : JSON -> Q.
Variable as_fluid : JSON -> FluidProperties.t.
Variable as_boolean : JSON -> bool.
Variable JSON_parse : string -> outcome JSON.

#[local] Abbreviation run :=
  (runCalculation fetch JSON_stringify ToString engine_message
     as_CalculationResult).
#[local] Abbreviation demo := (loadDemo fetch engine_message as_NetworkInput).
#[local] Abbreviation import :=
  (handleImportJSON as_nodes as_edges as_number as_fluid as_boolean JSON_parse).

(** X17.  However the request ends, [runCalculation] leaves the loading flag off
    and the edited network as it was.  Either the call returned, and then the
    error is cleared, the results tab is selected and the result cell holds
    the body; or it threw, and then the error cell holds the message of the
    exception while the result, the tab and the visible panel stay as they
    were. *)
Theorem runCalculation_settles (st : AppState) :
  loading (run st) = false
  /\ nodes (run st) = nodes st
  /\ edges (run st) = edges st
  /\ sourcePressure (run st) = sourcePressure st
  /\ fluid (run st) = fluid st
  /\ includeElevation (run st) = includeElevation st
  /\ ((exists body,
          calculateNetwork fetch JSON_stringify ToString (networkOf st)
          = Returned body
          /\ result (run st) = result_of as_CalculationResult body
          /\ error (run st) = None
          /\ activeTab (run st) = results)
      \/ (exists err,
             calculateNetwork fetch JSON_stringify ToString (networkOf st)
             = Thrown err
             /\ error (run st) = Some (message_of engine_message err)
             /\ result (run st) = result st
             /\ activeTab (run st) = activeTab st
             /\ visiblePanel (run st) = visiblePanel st)).
Proof.
  unfold runCalculation.
  destruct (calculateNetwork fetch JSON_stringify ToString (networkOf st))
    as [body|err]; simpl; repeat (split; [reflexivity|]).
  - left. exists body. repeat split.
  - right. exists err. repeat split.
Qed.


(** X19.  [loadDemo] is all or nothing.  It always ends with the loading
    flag off and the tab unchanged.  When the demo network was fetched and is
    not [null], nodes, edges, source pressure, fluid and elevation flag are
    all those of the demo and result and error are cleared.  When the fetch
    threw, or gave [null], the network and the result are untouched and the
    error cell holds the message of the exception. *)
Theorem loadDemo_all_or_nothing (st : AppState) :
  loading (demo st) = false
  /\ activeTab (demo st) = activeTab st
  /\ (forall body,
         getDemoNetwork fetch = Returned body ->
         body <> JNull ->
         nodes (demo st) = NetworkInput.nodes (as_NetworkInput body)
         /\ edges (demo st) = NetworkInput.edges (as_NetworkInput body)
         /\ sourcePressure (demo st)
            = NetworkInput.source_pressure_bar (as_NetworkInput body)
         /\ fluid (demo st) = NetworkInput.fluid (as_NetworkInput body)
         /\ includeElevation (demo st)
            = NetworkInput.include_elevation (as_NetworkInput body)
         /\ result (demo st) = None
         /\ error (demo st) = None)
  /\ (forall err,
         getDemoNetwork fetch = Thrown err
         \/ (getDemoNetwork fetch = Returned JNull /\ err = TypeError) ->
         nodes (demo st) = nodes st
         /\ edges (demo st) = edges st
         /\ sourcePressure (demo st) = sourcePressure st
         /\ fluid (demo st) = fluid st
         /\ includeElevation (demo st) = includeElevation st
         /\ result (demo st) = result st
         /\ error (demo st) = Some (message_of engine_message err)).
Proof.
  unfold loadDemo.
  destruct (getDemoNetwork fetch) as [body|err0].
  - split; [now destruct body|]. split; [now destruct body|]. split.
    + intros b [= <-] Hb. destruct body; try contradiction; repeat split.
    + intros err [H | [[= ->] ->]]; [discriminate|]. repeat split.
  - split; [reflexivity|]. split; [reflexivity|]. split.
    + intros b H. discriminate H.
    + intros err [[= <-] | [H _]]; [|discriminate]. repeat split.
Qed.

Lemma when_truthy_keeps {B : Type} (f : AppState -> B) (o : option JSON)
    (set : JSON -> AppState -> AppState) (st : AppState) :
  (forall v s, f (set v s) = f s) -> f (when_truthy o set st) = f st.
Proof.
  intros H. unfold when_truthy. destruct o as [v|]; [|reflexivity].
  destruct (truthy (Some v)); auto.
Qed.

Lemma when_defined_keeps {B : Type} (f : AppState -> B) (o : option JSON)
    (set : JSON -> AppState -> AppState) (st : AppState) :
  (forall v s, f (set v s) = f s) -> f (when_defined o set st) = f st.
Proof.
  intros H. unfold when_defined. destruct o as [v|]; auto.
Qed.

(** X20.  A file that does not parse, or that holds [null], changes nothing but the
    error cell, which reports an invalid file. *)
Theorem handleImportJSON_invalid (text : string) (st : AppState) :
  (exists err, JSON_parse text = Thrown err) \/ JSON_parse text = Returned JNull ->
  import text st = setError (Some "Invalid JSON file"%string) st.
Proof.
  unfold handleImportJSON. intros [[err ->] | ->]; reflexivity.
Qed.

(** X21.  An imported object is applied member by member, and result and error are
    cleared.  A member that is absent leaves its cell alone.  The source
    pressure is taken only when it is not zero: a file that says 0 keeps the
    pressure of the editor.  The elevation flag is taken whenever it is
    there, also when it is false. *)
Theorem handleImportJSON_members (text : string) (st : AppState)
    (members : list (string * JSON)) :
  JSON_parse text = Returned (JObject members) ->
  result (import text st) = None
  /\ error (import text st) = None
  /\ loading (import text st) = loading st
  /\ activeTab (import text st) = activeTab st
  /\ (member "nodes" (JObject members) = None ->
      nodes (import text st) = nodes st)
  /\ (member "edges" (JObject members) = None ->
      edges (import text st) = edges st)
  /\ (member "source_pressure_bar" (JObject members) = None ->
      sourcePressure (import text st) = sourcePressure st)
  /\ (forall q,
         member "source_pressure_bar" (JObject members) = Some (JNumber q) ->
         sourcePressure (import text st)
         = if Qeq_bool q 0 then sourcePressure st else q)
  /\ (member "include_elevation" (JObject members) = None ->
      includeElevation (import text st) = includeElevation st)
  /\ (forall b,
         member "include_elevation" (JObject members) = Some (JBool b) ->
         includeElevation (import text st) = b).
Proof.
  intros Hp. unfold handleImportJSON. rewrite Hp.
  unfold bind, importData.
  split; [reflexivity|]. split; [reflexivity|].
  split.
  { cbn [loading setError setResult].
    now rewrite when_defined_keeps, !when_truthy_keeps by reflexivity. }
  split.
  { cbn [activeTab setError setResult].
    now rewrite when_defined_keeps, !when_truthy_keeps by reflexivity. }
  split.
  { intros H. cbn [nodes setError setResult].
    rewrite when_defined_keeps, ?(when_truthy_keeps nodes) by reflexivity.
    rewrite H. reflexivity. }
  split.
  { intros H. cbn [edges setError setResult].
    rewrite when_defined_keeps, ?(when_truthy_keeps edges) by reflexivity.
    rewrite H. cbn [when_truthy].
    now rewrite ?(when_truthy_keeps edges) by reflexivity. }
  split.
  { intros H. cbn [sourcePressure setError setResult].
    rewrite when_defined_keeps, ?(when_truthy_keeps sourcePressure)
      by reflexivity.
    rewrite H. cbn [when_truthy].
    now rewrite ?(when_truthy_keeps sourcePressure) by reflexivity. }
  split.
  { intros q H. cbn [sourcePressure setError setResult].
    rewrite when_defined_keeps, ?(when_truthy_keeps sourcePressure)
      by reflexivity.
    rewrite H. unfold when_truthy at 1. simpl truthy.
    destruct (Qeq_bool q 0); simpl.
    - now rewrite ?(when_truthy_keeps sourcePressure) by reflexivity.
    - reflexivity. }
  split.
  { intros H. cbn [includeElevation setError setResult]. rewrite H.
    cbn [when_defined].
    now rewrite ?(when_truthy_keeps includeElevation) by reflexivity. }
  intros b H. cbn [includeElevation setError setResult]. rewrite H.
  reflexivity.
Qed.
End AppEffectsFacts.


(** X19, witness: the demo cannot be fetched from a server that refuses every
    request; the network stays as it was and the error cell says so. *)
Lemma loadDemo_all_or_nothing_witness :
  nodes (loadDemo refusing_server any_message (fun _ => scenarioA) initialState)
  = nodes initialState
  /\ error (loadDemo refusing_server any_message (fun _ => scenarioA)
              initialState)
     = Some "Failed to fetch demo network"%string.
Proof.
  destruct (loadDemo_all_or_nothing refusing_server any_message
              (fun _ => scenarioA) initialState) as (_ & _ & _ & H).
  destruct (H (Error "Failed to fetch demo network") (or_introl eq_refl))
    as (Hn & _ & _ & _ & _ & _ & He).
  split; [exact Hn|exact He].
Defined.

(** X20, witness. *)
Lemma handleImportJSON_invalid_witness :
  handleImportJSON any_nodes any_edges any_number any_fluid any_boolean
    (fun _ => Thrown (Error "Unexpected end of JSON input")) "{" initialState
  = setError (Some "Invalid JSON file"%string) initialState.
Proof.
  apply handleImportJSON_invalid. left. eexists. reflexivity.
Defined.

(** X21, witness. *)
Lemma handleImportJSON_members_witness :
  sourcePressure
    (handleImportJSON any_nodes any_edges any_number any_fluid any_boolean
       (fun _ => Returned zero_pressure_file) "{}" initialState)
  = 8.0%Q
  /\ includeElevation
       (handleImportJSON any_nodes any_edges any_number any_fluid any_boolean
          (fun _ => Returned zero_pressure_file) "{}" initialState)
     = false.
Proof.
  destruct (handleImportJSON_members any_nodes any_edges any_number any_fluid
              any_boolean (fun _ => Returned zero_pressure_file) "{}"
              initialState eq_refl)
    as (_ & _ & _ & _ & _ & _ & _ & Hp & _ & He).
  split.
  - exact (Hp 0%Q eq_refl).
  - exact (He false eq_refl).
Defined.

Lemma filter_none {A : Type} (p : A -> bool) (l : list A) :
  (forall x, In x l -> p x = false) -> filter p l = [].
Proof. apply filter_nil_iff. Qed.

Lemma addNode_nodes (type : NodeType) (st : AppState) :
  nodes (addNode type st)
  = nodes st
    ++ [createEmptyNode
          ((match type with junction => "J" | _ => "H" end)
           ++ string_of_nat
                (length (filter (fun n => NodeType_eqb (Node.type n) type)
                           (nodes st)) + 1))%string
          type].
Proof. reflexivity. Qed.

(** X22.  Junctions (or hydrants) added one after the other to a network
    that has no node of that type are appended in order with the ids J1, J2,
    ... (or H1, H2, ...), and no two of them share an id. *)
Theorem addNode_fresh_ids (type : NodeType) (n : nat) (st : AppState) :
  type <> source ->
  (forall m, In m (nodes st) -> Node.type m <> type) ->
  nodes (Nat.iter n (addNode type) st)
  = nodes st
    ++ map (fun i =>
              createEmptyNode
                ((match type with junction => "J" | _ => "H" end)
                 ++ string_of_nat i)%string
                type)
         (seq 1 n)
  /\ NoDup
       (map (fun i =>
               ((match type with junction => "J" | _ => "H" end)
                ++ string_of_nat i)%string)
          (seq 1 n)).
Proof.
  intros _ Hnone. split.
  - induction n as [|n IH].
    + simpl. now rewrite app_nil_r.
    + change (Nat.iter (S n) (addNode type) st)
        with (addNode type (Nat.iter n (addNode type) st)).
      rewrite addNode_nodes, IH, seq_S, map_app, filter_app.
      rewrite filter_none
        by (intros m Hm; apply NodeType_eqb_neq; now apply Hnone).
      rewrite filter_all.
      * simpl. rewrite length_map, length_seq, <- app_assoc.
        now replace (n + 1)%nat with (S n) by lia.
      * intros m Hm. apply in_map_iff in Hm. destruct Hm as [i [<- _]].
        simpl. now apply NodeType_eqb_eq.
  - apply NoDup_map_injective; [|apply seq_NoDup].
    intros x y Hxy. apply string_of_nat_inj.
    destruct type; injection Hxy as Hxy; exact Hxy.
Qed.

(** X22, witness. *)
Lemma addNode_fresh_ids_witness :
  map Node.node_id (nodes (Nat.iter 2 (addNode hydrant) initialState))
  = ["S"; "H1"; "H2"]%string.
Proof.
  rewrite (proj1 (@addNode_fresh_ids hydrant 2 initialState
                    ltac:(discriminate)
                    ltac:(intros m [<- | []]; discriminate))).
  reflexivity.
Defined.
